(** * GGA hardware daemon: battery gauge, arcade buttons and the main loop

    A shallow embedding of [battery_gauge.c], [arcade_buttons.c] and [main.c].

    - C [double] is Rocq's primitive binary64 [float]: every arithmetic
      operation and comparison below is the IEEE 754 one the C code performs.
    - C integers are [Z]; where the code narrows ([uint16_t], [unsigned int])
      the wrap-around is written out.
    - The I2C transport, the file system, the clock and the [reboot] system
      call are the environment: each call takes the answers the environment
      gives at that moment as an explicit argument.
    - [>>] on a negative [int] is the arithmetic shift the compiler emits
      ([Z.shiftr]).
    - [battery_current_history] is a list updated by index, as the C array. *)

From stdpp Require Import base list.
From Stdlib Require Import ZArith Bool Lia Floats Uint63 Strings.String Strings.Byte.

Set Warnings "-inexact-float".
Local Open Scope Z_scope.

(** [String] is loaded for the texts written to the status file; [length]
    stays the one of lists. *)
Abbreviation length := List.length.

(** ** Numeric conversions of C *)

(** [(double) z] for an [int] or [unsigned int] [z]: exact below 2^53. *)
Definition Z2double (z : Z) : float :=
  if z <? 0 then PrimFloat.opp (PrimFloat.of_uint63 (Uint63.of_Z (- z)))
  else PrimFloat.of_uint63 (Uint63.of_Z z).

Definition INT_MAX : Z := 2147483647.
Definition INT_MIN : Z := -2147483648.

(** The integer nearest to a finite double, halfway cases away from zero:
    libm's [round]. *)
Definition round_half_away (s : bool) (m : positive) (e : Z) : Z :=
  let mag :=
    match e with
    | Z0 => Zpos m
    | Zpos _ => Zpos m * 2 ^ e
    | Zneg p => let d := 2 ^ (Zpos p) in (2 * Zpos m + d) / (2 * d)
    end in
  if s then - mag else mag.

(** [(int) round(x)].  Outside [int]'s range (and for NaN) the C conversion is
    undefined; the model takes what the conversion instruction of the
    daemon's target (a 64-bit ARM Raspberry Pi) yields: saturation, and 0 for
    NaN. *)
Definition int_of_round (x : float) : Z :=
  match Prim2SF x with
  | S754_zero _ => 0
  | S754_nan => 0
  | S754_infinity s => if s then INT_MIN else INT_MAX
  | S754_finite s m e => Z.max INT_MIN (Z.min INT_MAX (round_half_away s m e))
  end.

(** ** The SMBus transport ([i2c_write_word], [i2c_read_word]) *)

Module I2C.

(** What the kernel answers to one [I2C_SMBUS] word read. *)
Record smbus_reply := { ioctl_ret : Z; data_word : Z }.

(** The device behind an open bus descriptor at the time of a call: the
    return value of a word write (to a command register, of the word put in
    [data.word]) and the reply to a word read. *)
Record bus := {
  smbus_write : Z -> Z -> Z;
  smbus_read : Z -> smbus_reply
}.

(** [((value & 0x00FF) << 8) | ((value & 0xFF00) >> 8)] *)
Definition swap_bytes (value : Z) : Z :=
  Z.lor (Z.shiftl (Z.land value 0x00FF) 8) (Z.shiftr (Z.land value 0xFF00) 8).

Definition i2c_write_word (b : bus) (reg value : Z) : Z :=
  if smbus_write b reg (swap_bytes value) <? 0 then -1 else 0.

Definition i2c_read_word (b : bus) (reg : Z) : Z :=
  let r := smbus_read b reg in
  if ioctl_ret r <? 0 then -1 else swap_bytes (data_word r).

End I2C.

(** ** battery_gauge.c *)

Module INA219.
Import I2C.

Definition REG_CONFIG : Z := 0x00.
Definition REG_SHUNTVOLTAGE : Z := 0x01.
Definition REG_BUSVOLTAGE : Z := 0x02.
Definition REG_POWER : Z := 0x03.
Definition REG_CURRENT : Z := 0x04.
Definition REG_CALIBRATION : Z := 0x05.

Definition INA219_MODE : Z := 0x07.
Definition BUS_ADC_RESOLUTION : Z := 0x0D.
Definition SHUNT_ADC_RESOLUTION : Z := 0x0D.

Definition BUS_VOLTAGE_RANGE_16V_5A : Z := 0x00.
Definition BUS_VOLTAGE_RANGE_23V_2A : Z := 0x01.
Definition GAIN_DIV_2_80MV : Z := 0x01.
Definition GAIN_DIV_8_320MV : Z := 0x03.

(** [ina219_config] without its descriptor: the device the descriptor stands
    for is passed to each function as a [bus]. *)
Record ina219_config := {
  cal_value : Z;
  bus_voltage : Z;
  gain : Z;
  current_lsb : float;
  power_lsb : float
}.

(** The sentinel the getters return when the calibration write fails. *)
Definition READ_FAILED : float := (-255.0)%float.

Definition configure_ina219 (chip : ina219_config) (io : bus) : Z :=
  if i2c_write_word io REG_CALIBRATION (cal_value chip) <? 0 then -1
  else
    let config_data :=
      Z.land
        (Z.lor (Z.lor (Z.lor (Z.lor (Z.shiftl (bus_voltage chip) 13)
                                     (Z.shiftl (gain chip) 11))
                              (Z.shiftl BUS_ADC_RESOLUTION 7))
                       (Z.shiftl SHUNT_ADC_RESOLUTION 3))
               INA219_MODE)
        0xFFFF in
    if i2c_write_word io REG_CONFIG config_data <? 0 then -2 else 0.

(** [initialize_ina219]: [malloc_ok] tells whether [malloc] returned a
    block, [open_ret] and [slave_ret] are the results of [open] and of the
    [I2C_SLAVE] ioctl; [None] is the NULL return.  The parameter
    [bus_voltage_range] is a [uint8_t]: the argument is narrowed to its low
    eight bits on entry. *)
Definition initialize_ina219 (malloc_ok : bool) (bus_voltage_range : Z)
    (open_ret slave_ret : Z) (io : bus) : option ina219_config :=
  let bus_voltage_range := bus_voltage_range mod 2 ^ 8 in
  if negb malloc_ok then None
  else
    let fields :=
      if bus_voltage_range =? BUS_VOLTAGE_RANGE_23V_2A then
        Some {| cal_value := 4096; bus_voltage := BUS_VOLTAGE_RANGE_23V_2A;
                gain := GAIN_DIV_8_320MV;
                current_lsb := 0.1%float; power_lsb := 0.002%float |}
      else if bus_voltage_range =? BUS_VOLTAGE_RANGE_16V_5A then
        Some {| cal_value := 26868; bus_voltage := BUS_VOLTAGE_RANGE_16V_5A;
                gain := GAIN_DIV_2_80MV;
                current_lsb := 0.1524%float; power_lsb := 0.003048%float |}
      else None in
    match fields with
    | None => None
    | Some chip =>
        if open_ret <? 0 then None
        else if negb (slave_ret =? 0) then None
        else if configure_ina219 chip io <? 0 then None
        else Some chip
    end.

Definition get_shunt_voltage (chip : ina219_config) (io : bus) : float :=
  if i2c_write_word io REG_CALIBRATION (cal_value chip) <? 0 then READ_FAILED
  else
    let val := i2c_read_word io REG_SHUNTVOLTAGE in
    let val := if val >? 32767 then val - 65535 else val in
    (Z2double val * 0.00001)%float.

Definition get_bus_voltage (chip : ina219_config) (io : bus) : float :=
  if i2c_write_word io REG_CALIBRATION (cal_value chip) <? 0 then READ_FAILED
  else
    let val := i2c_read_word io REG_BUSVOLTAGE in
    (Z2double (Z.shiftr val 3) * 0.004)%float.

Definition get_current (chip : ina219_config) (io : bus) : float :=
  if i2c_write_word io REG_CALIBRATION (cal_value chip) <? 0 then READ_FAILED
  else
    let val := i2c_read_word io REG_CURRENT in
    let val := if val >? 32767 then val - 65535 else val in
    (Z2double val * current_lsb chip)%float.

Definition get_power (chip : ina219_config) (io : bus) : float :=
  if i2c_write_word io REG_CALIBRATION (cal_value chip) <? 0 then READ_FAILED
  else
    let val := i2c_read_word io REG_POWER in
    let val := if val >? 32767 then val - 65535 else val in
    (Z2double val * power_lsb chip)%float.

Definition estimate_battery_percentage (battery_min_volts : float)
    (chip : ina219_config) (io : bus) : float :=
  let batt := ((get_bus_voltage chip io - battery_min_volts) / 3.6)%float in
  if (1 <? batt)%float then 1.0%float
  else if (batt <? 0)%float then 0.0%float
  else batt.

End INA219.

(** ** arcade_buttons.c *)

Module Bonnet.

Definition ARCADE_BUTTONS_COUNT : Z := 14.

Inductive arcade_buttons :=
| BUTTON_1A | BUTTON_1B | BUTTON_1C | BUTTON_1D | BUTTON_1E | BUTTON_1F
| PAD_DOWN | PAD_UP | PAD_RIGHT | PAD_LEFT
| STICK_RIGHT | STICK_LEFT | STICK_DOWN | STICK_UP.

(** The enumerators' values.  A variable of the enum type holds any 16-bit
    mask, so button states are [Z]. *)
Definition button_mask (b : arcade_buttons) : Z :=
  match b with
  | BUTTON_1A => 0x0001 | BUTTON_1B => 0x0002 | BUTTON_1C => 0x0004
  | BUTTON_1D => 0x0008 | BUTTON_1E => 0x0010 | BUTTON_1F => 0x0020
  | PAD_DOWN => 0x0100 | PAD_UP => 0x0200
  | PAD_RIGHT => 0x0400 | PAD_LEFT => 0x0800
  | STICK_RIGHT => 0x1000 | STICK_LEFT => 0x2000
  | STICK_DOWN => 0x4000 | STICK_UP => 0x8000
  end.

Definition IODIRA : byte := x00.
Definition IOCONA : byte := x0a.
Definition INTCAPA : byte := x10.

(** The device behind the bonnet's descriptor at the time of a call:
    [write(fd, buf, n)] answers a count for the bytes offered, [read(fd, buf,
    n)] a count and the bytes it stored in [buf]. *)
Record i2c_file := {
  file_write : list byte -> Z;
  file_read : Z -> Z * list byte
}.

(** [arcade_bonnet]: only [state] takes part in the logic. *)
Record arcade_bonnet := { state : Z }.

Definition buf_at (buf : list byte) (i : nat) : Z :=
  Z.of_N (Byte.to_N (nth i buf x00)).

Definition read_buttons_pressed (bonnet : arcade_bonnet) (io : i2c_file)
    : Z * arcade_bonnet :=
  let old_state := state bonnet in
  if negb (file_write io [INTCAPA] =? 1) then (-1, bonnet)
  else
    let '(n, buf) := file_read io 4 in
    if negb (n =? 4) then (-1, bonnet)
    else
      let val := Z.land (Z.lor (buf_at buf 2) (Z.shiftl (buf_at buf 3) 8)) 0xFFFF in
      let bonnet := {| state := val |} in
      (if state bonnet =? old_state then 0 else 1, bonnet).

(** [configure_arcade_bonnet]: [uninit] is what the freshly allocated
    [state] field happens to hold; [None] is the NULL return. *)
Definition configure_arcade_bonnet (open_ret slave_ret : Z) (uninit : Z)
    (io : i2c_file) : option arcade_bonnet :=
  let bonnet := {| state := uninit |} in
  if open_ret <? 0 then None
  else if negb (slave_ret =? 0) then None
  else if negb (file_write io [x05; x00] =? 2) then None
  else if negb (file_write io [IOCONA; x44] =? 2) then None
  else if negb (file_write io [IODIRA] =? 1) then None
  else
    let '(n, regs) := file_read io 14 in
    if negb (n =? 14) then None
    else
      let buf := IODIRA :: take 14 (regs ++ replicate 14 x00) in
      let buf := <[1%nat := xff]> (<[2%nat := xff]> buf) in
      let buf := <[3%nat := x00]> (<[4%nat := x00]> buf) in
      let buf := <[5%nat := xff]> (<[6%nat := xff]> buf) in
      let buf := <[13%nat := xff]> (<[14%nat := xff]> buf) in
      if negb (file_write io buf =? 15) then None
      else Some (snd (read_buttons_pressed bonnet io)).

(** [wait_for_button_interrupt] (built with GPIO_INT): [wait_ret] is the
    result of waiting for an edge on the interrupt line. *)
Definition wait_for_button_interrupt (bonnet : arcade_bonnet) (wait_ret : Z)
    (io : i2c_file) : Z * arcade_bonnet :=
  if wait_ret >? 0 then read_buttons_pressed bonnet io
  else (wait_ret, bonnet).

End Bonnet.

(** ** main.c *)

Module Main.
Import I2C INA219 Bonnet.

Definition BATTERY_UPDATE_INTERVAL : Z := 200.
Definition BATTERY_SAMPLE_BUFFER : nat := 128.
Definition BATTERY_MIN_VOLTAGE : float := 9.0%float.
Definition BATTERY_CAPACITY_MAH : Z := 2500.
Definition BATTERY_SHUTDOWN_LIMIT : float := 0.1%float.

(** Event types and key codes of [linux/input-event-codes.h]. *)
Definition EV_SYN : Z := 0.
Definition EV_KEY : Z := 1.
Definition SYN_REPORT : Z := 0.
Definition KEY_ESC : Z := 1.
Definition KEY_1 : Z := 2.
Definition KEY_2 : Z := 3.
Definition KEY_8 : Z := 9.
Definition KEY_9 : Z := 10.
Definition KEY_Y : Z := 21.
Definition KEY_ENTER : Z := 28.
Definition KEY_LEFTCTRL : Z := 29.
Definition KEY_S : Z := 31.
Definition KEY_X : Z := 45.
Definition KEY_UP : Z := 103.
Definition KEY_LEFT : Z := 105.
Definition KEY_RIGHT : Z := 106.
Definition KEY_DOWN : Z := 108.

Definition KEYCODES : list Z :=
  [ KEY_LEFTCTRL; KEY_S; KEY_ENTER; KEY_Y; KEY_ESC; KEY_X;
    KEY_9; KEY_2; KEY_1; KEY_8;
    KEY_UP; KEY_DOWN; KEY_RIGHT; KEY_LEFT ].

(** What the daemon does to the outside: events written to the uinput
    device, the two status files, and the power-off request.  Text printed to
    the terminal is left out. *)
Inductive action :=
| UinputEvent (type code value : Z)
| WriteStatus (text : string)
| WriteCapacity (p : Z)
| RebootPowerOff.

(** How a piece of the daemon ends: it goes on with a value, the process
    exits, or the machine is powered off and nothing runs any more. *)
Inductive outcome (A : Type) :=
| Running (a : A)
| Exited (code : Z)
| PoweredOff.
Arguments Running {A} a.
Arguments Exited {A} code.
Arguments PoweredOff {A}.

(** The actions performed so far, and how it ended. *)
Definition proc (A : Type) : Type := list action * outcome A.

Definition ret {A} (a : A) : proc A := ([], Running a).

Definition bind {A B} (c : proc A) (k : A -> proc B) : proc B :=
  match c with
  | (acts, Running a) => let '(acts', o) := k a in (acts ++ acts', o)
  | (acts, Exited code) => (acts, Exited code)
  | (acts, PoweredOff) => (acts, PoweredOff)
  end.

Definition emit (a : action) : proc unit := ([a], Running tt).
Definition exit_ {A} (code : Z) : proc A := ([], Exited code).

Notation "x <- c ;; k" := (bind c (fun x => k))
  (at level 20, c at level 99, k at level 200, only parsing).

(** The globals [batt_charging_last] and [batt_percentage_last]. *)
Record globals := {
  batt_charging_last : Z;
  batt_percentage_last : Z
}.

Definition initial_globals : globals :=
  {| batt_charging_last := -1; batt_percentage_last := -1 |}.

(** What the system answers during one call of [battery_handler]: the
    descriptors [open] returns for the two files, and whether [reboot] comes
    back to the caller (it does only when it failed). *)
Record system := {
  status_open : Z;
  capacity_open : Z;
  reboot_returns : bool
}.

Definition battery_handler (sys : system) (percentage : float) (charging : Z)
    (g : globals) : proc globals :=
  let p := int_of_round (percentage * 100)%float in
  g <- (if negb (charging =? batt_charging_last g) then
          let g := {| batt_charging_last := charging;
                      batt_percentage_last := batt_percentage_last g |} in
          if status_open sys <? 0 then exit_ (-1)
          else
            _ <- emit (WriteStatus (if charging =? 0 then "Discharging" else "Charging")) ;;
            ret g
        else ret g) ;;
  g <- (if negb (p =? batt_percentage_last g) then
          let g := {| batt_charging_last := batt_charging_last g;
                      batt_percentage_last := p |} in
          if capacity_open sys <? 0 then exit_ (-1)
          else _ <- emit (WriteCapacity p) ;; ret g
        else ret g) ;;
  if (percentage <=? BATTERY_SHUTDOWN_LIMIT)%float && (charging =? 0) then
    _ <- emit RebootPowerOff ;;
    if reboot_returns sys then ret g else ([], PoweredOff)
  else ret g.

Definition check_press_button (button : arcade_buttons) (change current : Z)
    (key : Z) : list action :=
  if negb (Z.land change (button_mask button) =? 0) then
    let pressed := if Z.land current (button_mask button) =? 0 then 1 else 0 in
    [UinputEvent EV_KEY key pressed]
  else [].

Definition KEYCODES_at (i : nat) : Z := nth i KEYCODES 0.

Definition button_handler (last_state curr_state : Z) : list action :=
  let changes := Z.land (Z.lxor last_state curr_state) 0xFFFF in
  check_press_button BUTTON_1A changes curr_state (KEYCODES_at 0) ++
  check_press_button BUTTON_1B changes curr_state (KEYCODES_at 1) ++
  check_press_button BUTTON_1C changes curr_state (KEYCODES_at 2) ++
  check_press_button BUTTON_1D changes curr_state (KEYCODES_at 3) ++
  check_press_button BUTTON_1E changes curr_state (KEYCODES_at 4) ++
  check_press_button BUTTON_1F changes curr_state (KEYCODES_at 5) ++
  check_press_button PAD_DOWN changes curr_state (KEYCODES_at 6) ++
  check_press_button PAD_UP changes curr_state (KEYCODES_at 7) ++
  check_press_button PAD_RIGHT changes curr_state (KEYCODES_at 8) ++
  check_press_button PAD_LEFT changes curr_state (KEYCODES_at 9) ++
  check_press_button STICK_RIGHT changes curr_state (KEYCODES_at 10) ++
  check_press_button STICK_LEFT changes curr_state (KEYCODES_at 11) ++
  check_press_button STICK_DOWN changes curr_state (KEYCODES_at 12) ++
  check_press_button STICK_UP changes curr_state (KEYCODES_at 13) ++
  [UinputEvent EV_SYN SYN_REPORT 0].

(** [struct timespec] *)
Record timespec := { tv_sec : Z; tv_nsec : Z }.

(** The battery variables of [main]. *)
Record battery := {
  battery_current_history : list float;
  last_capacity : float;
  last_ts : timespec
}.

(** [ms_passed]: computed in [long], with C's truncating division, and
    stored in an [unsigned int]. *)
Definition ms_between (current_ts last : timespec) : Z :=
  ((tv_sec current_ts - tv_sec last) * 1000
   + Z.quot (tv_nsec current_ts - tv_nsec last) 1000000) mod 2 ^ 32.

(** The loop [for (i = BATTERY_SAMPLE_BUFFER - 1; i > 0; i--)], entered at
    index [i] with the array [h] and the flag [charging]. *)
Fixpoint shift_samples (i : nat) (h : list float) (charging : Z)
    : list float * Z :=
  match i with
  | O => (h, charging)
  | S j =>
      let h := <[i := nth j h 0%float]> h in
      let charging := if (0 <? nth i h 0)%float then 1 else charging in
      shift_samples j h charging
  end.

(** The history update of a battery tick: [battery_current_history[0] =
    current], then the loop. *)
Definition push_sample (current : float) (h : list float) : list float * Z :=
  shift_samples (BATTERY_SAMPLE_BUFFER - 1) (<[0%nat := current]> h) 0.

(** Seeding, as [main] does it before the loop: the history zeroed, the
    capacity from the bus voltage, the time from the clock. *)
Definition seed_battery (chip : ina219_config) (io : bus) (now : timespec)
    : battery :=
  {| battery_current_history := replicate BATTERY_SAMPLE_BUFFER 0%float;
     last_capacity :=
       (estimate_battery_percentage BATTERY_MIN_VOLTAGE chip io
        * Z2double BATTERY_CAPACITY_MAH)%float;
     last_ts := now |}.

(** The capacity after a tick: [last_capacity + (current * ((double)ms_passed
    / 3.6e6))]. *)
Definition new_capacity (last_capacity current : float) (ms_passed : Z)
    : float :=
  (last_capacity + current * (Z2double ms_passed / 3.6e6))%float.

(** The body of [if (ms_passed >= BATTERY_UPDATE_INTERVAL)] up to the call of
    [battery_handler]: the battery variables after it, and the two arguments
    handed to the handler. *)
Definition battery_update (chip : ina219_config) (io : bus)
    (current_ts : timespec) (ms_passed : Z) (b : battery)
    : battery * float * Z :=
  let shunt_voltage := get_shunt_voltage chip io in
  let current := get_current chip io in
  let new_capacity := new_capacity (last_capacity b) current ms_passed in
  let '(history, charging) := push_sample current (battery_current_history b) in
  ({| battery_current_history := history;
      last_capacity := new_capacity;
      last_ts := current_ts |},
   (new_capacity / Z2double BATTERY_CAPACITY_MAH)%float,
   charging).

(** The battery part of one loop iteration. *)
Definition battery_tick (chip : ina219_config) (io : bus) (sys : system)
    (current_ts : timespec) (b : battery) (g : globals)
    : proc (battery * globals) :=
  let ms_passed := ms_between current_ts (last_ts b) in
  if ms_passed >=? BATTERY_UPDATE_INTERVAL then
    let '(b, percentage, charging) :=
      battery_update chip io current_ts ms_passed b in
    g <- battery_handler sys percentage charging g ;;
    ret (b, g)
  else ret (b, g).

(** How the button state is refreshed in an iteration: by polling (the
    default build) or after waiting on the interrupt line (GPIO_INT). *)
Inductive button_wait := Poll | Interrupt (wait_ret : Z).

(** The button part of one loop iteration. *)
Definition button_step (mode : button_wait) (io : i2c_file)
    (buttons : arcade_bonnet) (last_state : Z)
    : proc (arcade_bonnet * Z) :=
  let '(button_update, buttons) :=
    match mode with
    | Poll => read_buttons_pressed buttons io
    | Interrupt wait_ret => wait_for_button_interrupt buttons wait_ret io
    end in
  if negb (button_update =? 0) then
    (button_handler last_state (state buttons), Running (buttons, state buttons))
  else ret (buttons, last_state).

(** The variables the loop carries from one iteration to the next. *)
Record daemon := {
  buttons : arcade_bonnet;
  last_state : Z;
  batt : battery;
  glob : globals
}.

(** Everything the outside answers during one loop iteration. *)
Record world := {
  button_mode : button_wait;
  bonnet_io : i2c_file;
  gauge_io : bus;
  clock : timespec;
  sys : system
}.

(** The command-line switches [-s] and [-b]. *)
Record flags := { enable_buttons : bool; enable_battery : bool }.

(** One iteration of [for (;;)]. *)
Definition loop_body (f : flags) (chip : ina219_config) (w : world)
    (d : daemon) : proc daemon :=
  bl <- (if enable_buttons f then
           button_step (button_mode w) (bonnet_io w) (buttons d) (last_state d)
         else ret (buttons d, last_state d)) ;;
  bg <- (if enable_battery f then
           battery_tick chip (gauge_io w) (sys w) (clock w) (batt d) (glob d)
         else ret (batt d, glob d)) ;;
  ret {| buttons := fst bl; last_state := snd bl;
         batt := fst bg; glob := snd bg |}.

(** The loop over the iterations the outside lets happen: it stops when the
    process exits or the machine is powered off. *)
Fixpoint run (f : flags) (chip : ina219_config) (ws : list world)
    (d : daemon) : proc daemon :=
  match ws with
  | [] => ret d
  | w :: ws => d <- loop_body f chip w d ;; run f chip ws d
  end.

End Main.

(** ** Vocabulary of the statements *)

Import I2C INA219 Bonnet Main.

(** The fourteen buttons in the order [button_handler] goes through them. *)
Definition all_buttons : list arcade_buttons :=
  [ BUTTON_1A; BUTTON_1B; BUTTON_1C; BUTTON_1D; BUTTON_1E; BUTTON_1F;
    PAD_DOWN; PAD_UP; PAD_RIGHT; PAD_LEFT;
    STICK_RIGHT; STICK_LEFT; STICK_DOWN; STICK_UP ].

(** The position of a button's bit in the mask. *)
Definition button_bit (b : arcade_buttons) : Z :=
  match b with
  | BUTTON_1A => 0 | BUTTON_1B => 1 | BUTTON_1C => 2
  | BUTTON_1D => 3 | BUTTON_1E => 4 | BUTTON_1F => 5
  | PAD_DOWN => 8 | PAD_UP => 9 | PAD_RIGHT => 10 | PAD_LEFT => 11
  | STICK_RIGHT => 12 | STICK_LEFT => 13 | STICK_DOWN => 14 | STICK_UP => 15
  end.

(** The key [button_handler] passes along with each button. *)
Definition keycode (b : arcade_buttons) : Z :=
  match b with
  | BUTTON_1A => KEYCODES_at 0 | BUTTON_1B => KEYCODES_at 1
  | BUTTON_1C => KEYCODES_at 2 | BUTTON_1D => KEYCODES_at 3
  | BUTTON_1E => KEYCODES_at 4 | BUTTON_1F => KEYCODES_at 5
  | PAD_DOWN => KEYCODES_at 6 | PAD_UP => KEYCODES_at 7
  | PAD_RIGHT => KEYCODES_at 8 | PAD_LEFT => KEYCODES_at 9
  | STICK_RIGHT => KEYCODES_at 10 | STICK_LEFT => KEYCODES_at 11
  | STICK_DOWN => KEYCODES_at 12 | STICK_UP => KEYCODES_at 13
  end.

(** The event {button, pressed} as it reaches the keyboard device. *)
Definition button_event (b : arcade_buttons) (pressed : bool) : action :=
  UinputEvent EV_KEY (keycode b) (if pressed then 1 else 0).

Definition sync_report : action := UinputEvent EV_SYN SYN_REPORT 0.

(** The diff as the specification words it: an event for each button whose
    bit is set in [previous_mask XOR new_mask], pressed when the bit is set
    in [new_mask]. *)
Definition spec_diff (previous_mask new_mask : Z) : list action :=
  let changed := Z.lxor previous_mask new_mask in
  flat_map
    (fun b =>
       if Z.testbit changed (button_bit b)
       then [button_event b (Z.testbit new_mask (button_bit b))]
       else [])
    all_buttons.

(** A 16-bit mask with every bit inverted. *)
Definition invert_mask (m : Z) : Z := Z.lxor m 0xFFFF.

(** The sliding window as the specification words it: the new sample in
    front, the oldest of the [BATTERY_SAMPLE_BUFFER] entries dropped. *)
Definition fifo_push (current : float) (h : list float) : list float :=
  current :: take (BATTERY_SAMPLE_BUFFER - 1) h.

(** The window after pushing the same sample [n] times, and the flag of the
    last of these pushes ([0] when there was none). *)
Fixpoint push_samples (n : nat) (current : float) (h : list float)
    : list float * Z :=
  match n with
  | O => (h, 0)
  | S n => push_sample current (fst (push_samples n current h))
  end.

Definition positive_sample (x : float) : bool := (0 <? x)%float.

Definition is_power_off (a : action) : bool :=
  match a with RebootPowerOff => true | _ => false end.

(** How many times the power-off request occurs among some actions. *)
Definition power_offs (acts : list action) : nat :=
  length (List.filter is_power_off acts).

(** The two configurations [initialize_ina219] sets up. *)
Definition chip_16V_5A : ina219_config :=
  {| cal_value := 26868; bus_voltage := BUS_VOLTAGE_RANGE_16V_5A;
     gain := GAIN_DIV_2_80MV;
     current_lsb := 0.1524%float; power_lsb := 0.003048%float |}.

Definition chip_23V_2A : ina219_config :=
  {| cal_value := 4096; bus_voltage := BUS_VOLTAGE_RANGE_23V_2A;
     gain := GAIN_DIV_8_320MV;
     current_lsb := 0.1%float; power_lsb := 0.002%float |}.

(** A bus on which every transaction succeeds and every register reads as
    the word [w]. *)
Definition bus_reading (w : Z) : bus :=
  {| smbus_write := fun _ _ => 0;
     smbus_read := fun _ => {| ioctl_ret := 0; data_word := swap_bytes w |} |}.

(** A bus on which every transaction fails. *)
Definition bus_failing : bus :=
  {| smbus_write := fun _ _ => -1;
     smbus_read := fun _ => {| ioctl_ret := -1; data_word := 0 |} |}.

(** A bus on which writes succeed and reads fail. *)
Definition bus_unreadable : bus :=
  {| smbus_write := fun _ _ => 0;
     smbus_read := fun _ => {| ioctl_ret := -1; data_word := 0 |} |}.

(** A bonnet that takes the register address and answers four bytes. *)
Definition bonnet_answering (b0 b1 b2 b3 : byte) : i2c_file :=
  {| file_write := fun bs => Z.of_nat (length bs);
     file_read := fun n => (n, [b0; b1; b2; b3]) |}.

(** A bonnet whose reads come back short. *)
Definition bonnet_short_read : i2c_file :=
  {| file_write := fun bs => Z.of_nat (length bs);
     file_read := fun _ => (2, [xff; xff]) |}.

(** A bonnet that refuses every write. *)
Definition bonnet_unwritable : i2c_file :=
  {| file_write := fun _ => -1;
     file_read := fun n => (n, [x00; x00; x00; x00]) |}.

Definition zero_history : list float := replicate BATTERY_SAMPLE_BUFFER 0%float.

Definition epoch : timespec := {| tv_sec := 0; tv_nsec := 0 |}.

(** A system where both files open and power-off takes effect. *)
Definition system_ok : system :=
  {| status_open := 3; capacity_open := 3; reboot_returns := false |}.

(** A system where the status file cannot be opened. *)
Definition system_no_status : system :=
  {| status_open := -1; capacity_open := 3; reboot_returns := false |}.

(** A system where the capacity file cannot be opened. *)
Definition system_no_capacity : system :=
  {| status_open := 3; capacity_open := -1; reboot_returns := false |}.

(** A system where [reboot] fails and returns. *)
Definition system_no_reboot : system :=
  {| status_open := 3; capacity_open := 3; reboot_returns := true |}.

(** A chip as [initialize_ina219] can return it. *)
Definition initialized (chip : ina219_config) : Prop :=
  exists malloc_ok range open_ret slave_ret io,
    initialize_ina219 malloc_ok range open_ret slave_ret io = Some chip.

(** A battery seeded at 1000 mAh at time 0, and the clock 200 ms later. *)
Definition seeded_1000 : battery :=
  {| battery_current_history := zero_history;
     last_capacity := 1000%float;
     last_ts := epoch |}.

Definition after_200_ms : timespec := {| tv_sec := 0; tv_nsec := 200000000 |}.
Definition after_400_ms : timespec := {| tv_sec := 0; tv_nsec := 400000000 |}.

(** The bus voltage [get_bus_voltage] computes from the shifted register
    word [k = val >> 3]. *)
Definition volts_of_word (k : Z) : float := (Z2double k * 0.004)%float.

(** The percentage [estimate_battery_percentage BATTERY_MIN_VOLTAGE] computes
    from a bus voltage. *)
Definition seed_of_volts (V : float) : float :=
  let batt := ((V - BATTERY_MIN_VOLTAGE) / 3.6)%float in
  if (1 <? batt)%float then 1.0%float
  else if (batt <? 0)%float then 0.0%float
  else batt.

Definition unit_interval (p : float) : bool := ((0 <=? p) && (p <=? 1))%float.

(** [P] holds of each of the [2 ^ d] integers from [lo] on. *)
Fixpoint forall_range (d : nat) (lo : Z) (P : Z -> bool) : bool :=
  match d with
  | O => P lo
  | S d' => forall_range d' lo P && forall_range d' (lo + 2 ^ Z.of_nat d') P
  end.

(** ** Vocabulary of the arithmetic of doubles

    The value of a double is counted in units of the smallest subnormal,
    2^-1074, which makes it an integer; [TOP] stands for infinity.  A
    rational is given by a numerator and a denominator. *)

(** Where the rational [p / q] lies in the unit step above its floor. *)
Definition loc_of (p q : Z) : location :=
  if p mod q =? 0 then loc_Exact else loc_Inexact (2 * (p mod q) ?= q).

Definition record_of (p q : Z) : shr_record :=
  shr_record_of_loc (p / q) (loc_of p q).

(** The number of low bits a double drops from the rational [P / Q], counted
    in units of the smallest subnormal. *)
Definition sh (P Q : Z) : Z := Z.max (Zdigits2 (P / Q) - 53) 0.

(** [P / Q] rounded to the nearest double, ties to even, in the same unit. *)
Definition rv (P Q : Z) : Z :=
  let s := sh P Q in
  round_nearest_even (P / (Q * 2 ^ s)) (loc_of P (Q * 2 ^ s)) * 2 ^ s.

Definition TOP : Z := 2 ^ 2098.

Definition ord (x : spec_float) : Z :=
  match x with
  | S754_zero _ => 0
  | S754_infinity s => if s then - TOP else TOP
  | S754_nan => 0
  | S754_finite s m e =>
      if s then - (Zpos m * 2 ^ (e + 1074)) else Zpos m * 2 ^ (e + 1074)
  end.

(** The second half of [binary_round_aux]: the rounded mantissa is shifted
    once more if rounding carried into a new bit, and packed. *)
Definition bra_finish (sx : bool) (m1 E : Z) : spec_float :=
  let '(mrs, e) := shr_fexp prec emax m1 E loc_Exact in
  match shr_m mrs with
  | Z0 => S754_zero sx
  | Zpos m => if e <=? emax - prec then S754_finite sx m e else S754_infinity sx
  | _ => S754_nan
  end.

(** Zero, a positive number or plus infinity. *)
Definition pos_sf (x : spec_float) : bool :=
  match x with
  | S754_zero _ => true
  | S754_infinity s => negb s
  | S754_finite s _ _ => negb s
  | S754_nan => false
  end.

(** Zero or a finite number. *)
Definition fin_sf (x : spec_float) : bool :=
  match x with
  | S754_zero _ | S754_finite _ _ _ => true
  | _ => false
  end.

Definition num_sf (x : spec_float) : bool :=
  match x with S754_nan => false | _ => true end.

(** The double 3.6. *)
Definition SF_3_6 : spec_float := S754_finite false 8106479329266893 (-51).

(** What dividing by 3.6 does to the value of a double that is not
    negative. *)
Definition div_3_6 (X : Z) : Z :=
  if X <? TOP then Z.min (rv (X * 2 ^ 51) 8106479329266893) TOP else TOP.

(** The value of a double, and whether it is a number. *)
Definition fval (x : float) : Z := ord (Prim2SF x).
Definition is_num (x : float) : bool := num_sf (Prim2SF x).
Definition is_fin (x : float) : bool := fin_sf (Prim2SF x).

(** The voltage of a shifted register word is a finite double. *)
Definition word_finite (k : Z) : bool := is_fin (volts_of_word k).

(** ** Vocabulary of the further properties *)

(** The word [configure_ina219] writes to the configuration register. *)
Definition config_word (chip : ina219_config) : Z :=
  Z.land
    (Z.lor (Z.lor (Z.lor (Z.lor (Z.shiftl (bus_voltage chip) 13)
                                 (Z.shiftl (gain chip) 11))
                          (Z.shiftl BUS_ADC_RESOLUTION 7))
                   (Z.shiftl SHUNT_ADC_RESOLUTION 3))
           INA219_MODE)
    0xFFFF.

(** The integer the getters of signed registers multiply by their LSB:
    [if (val > 32767) val -= 65535]. *)
Definition signed_word (val : Z) : Z :=
  if val >? 32767 then val - 65535 else val.

(** What the four getters of the 16 V configuration compute from the result
    [val] of a read differs from the sentinel. *)
Definition word_not_sentinel (val : Z) : bool :=
  negb (Z2double (signed_word val) * current_lsb chip_16V_5A =? READ_FAILED)%float
  && negb (Z2double (signed_word val) * power_lsb chip_16V_5A =? READ_FAILED)%float
  && negb (Z2double (signed_word val) * 0.00001 =? READ_FAILED)%float
  && negb (volts_of_word (Z.shiftr val 3) =? READ_FAILED)%float.

(** For a bus voltage: the seed percentage is in [0,1], it is 0 exactly up
    to 9.0 V and 1 exactly above 12.6 V, and the seeded capacity is in
    [0, 2500]. *)
Definition volts_seed_ok (V : float) : bool :=
  let p := seed_of_volts V in
  let c := (p * Z2double BATTERY_CAPACITY_MAH)%float in
  unit_interval p
  && Bool.eqb (p =? 0)%float (V <=? BATTERY_MIN_VOLTAGE)%float
  && Bool.eqb (p =? 1)%float (BATTERY_MIN_VOLTAGE + 3.6 <? V)%float
  && ((0 <=? c) && (c <=? Z2double BATTERY_CAPACITY_MAH))%float.

Definition word_seed_ok (k : Z) : bool := volts_seed_ok (volts_of_word k).

(** The voltage of a shifted word lies in [0, 32.764] and is below the
    voltage of the next word. *)
Definition word_volts_ok (k : Z) : bool :=
  ((0 <=? volts_of_word k) && (volts_of_word k <=? 32.764)
   && (volts_of_word k <? volts_of_word (k + 1)))%float.

(** The fifteen bytes [configure_arcade_bonnet] writes back, from the
    fourteen register bytes [regs] it read. *)
Definition config_buffer (regs : list byte) : list byte :=
  let buf := IODIRA :: take 14 (regs ++ replicate 14 x00) in
  let buf := <[1%nat := xff]> (<[2%nat := xff]> buf) in
  let buf := <[3%nat := x00]> (<[4%nat := x00]> buf) in
  let buf := <[5%nat := xff]> (<[6%nat := xff]> buf) in
  <[13%nat := xff]> (<[14%nat := xff]> buf).

(** A bonnet that takes every write and answers the fourteen configuration
    registers, but whose four-byte button read fails. *)
Definition bonnet_losing_reads : i2c_file :=
  {| file_write := fun bs => Z.of_nat (length bs);
     file_read := fun n => if n =? 14 then (14, replicate 14 x00) else (-1, []) |}.

(** The instant of a [timespec], in nanoseconds. *)
Definition total_ns (t : timespec) : Z := tv_sec t * 1000000000 + tv_nsec t.

(** A [timespec] as [clock_gettime] fills it. *)
Definition normalized (t : timespec) : Prop := 0 <= tv_nsec t < 1000000000.

Definition is_uinput (a : action) : bool :=
  match a with UinputEvent _ _ _ => true | _ => false end.

(** A run that powered the machine off requested it once, as its last
    action; any other run did not request it. *)
Definition power_off_shape {A} (p : proc A) : Prop :=
  (snd p = PoweredOff /\ power_offs (fst p) = 1%nat
   /\ last (fst p) = Some RebootPowerOff)
  \/ (snd p <> PoweredOff /\ power_offs (fst p) = 0%nat).

(** A world in which [reboot] does not come back. *)
Definition reboot_works (w : world) : Prop := reboot_returns (sys w) = false.

(** An iteration 200 ms after the epoch: the buttons all released, the
    gauge reading the word [w] in every register, the files opening and
    [reboot] taking effect. *)
Definition world_reading (w : Z) : world :=
  {| button_mode := Poll;
     bonnet_io := bonnet_answering xff xff xff xff;
     gauge_io := bus_reading w;
     clock := after_200_ms;
     sys := system_ok |}.

(** The daemon after a startup at which the gauge did not answer. *)
Definition daemon_seeded_blind : daemon :=
  {| buttons := {| state := 0xFFFF |};
     last_state := 0xFFFF;
     batt := seed_battery chip_16V_5A bus_failing epoch;
     glob := initial_globals |}.

Definition both_enabled : flags :=
  {| enable_buttons := true; enable_battery := true |}.

(** * Properties *)

(** ** Bit-level facts *)

Section Bits.

Lemma land_pow2_is_zero (x k : Z) :
  0 <= k -> (Z.land x (2 ^ k) =? 0) = negb (Z.testbit x k).
Proof.
  intros Hk. destruct (Z.testbit x k) eqn:E; simpl.
  - apply Z.eqb_neq. intros H0.
    assert (Hb : Z.testbit (Z.land x (2 ^ k)) k = true).
    { rewrite Z.land_spec, E, Z.pow2_bits_true by assumption. reflexivity. }
    rewrite H0, Z.bits_0 in Hb. discriminate.
  - apply Z.eqb_eq. apply Z.bits_inj'. intros n Hn.
    rewrite Z.land_spec, Z.bits_0.
    destruct (Z.eq_dec k n) as [->|Hne].
    + rewrite E. reflexivity.
    + rewrite Z.pow2_bits_false by assumption. apply andb_false_r.
Qed.

Lemma button_mask_bit (b : arcade_buttons) :
  button_mask b = 2 ^ button_bit b /\ 0 <= button_bit b < 16.
Proof. destruct b; split; (reflexivity || (simpl; lia)). Qed.

Lemma testbit_low16 (x k : Z) :
  0 <= k < 16 -> Z.testbit (Z.land x 0xFFFF) k = Z.testbit x k.
Proof.
  intros Hk. change 0xFFFF with (Z.ones 16).
  rewrite Z.land_spec, Z.ones_spec_low by lia. apply andb_true_r.
Qed.

Lemma lor_below_pow2 (a b n : Z) :
  0 <= n -> 0 <= a < 2 ^ n -> 0 <= b < 2 ^ n -> 0 <= Z.lor a b < 2 ^ n.
Proof.
  intros Hn Ha Hb. split.
  - apply Z.lor_nonneg. lia.
  - destruct (Z.eq_dec (Z.lor a b) 0) as [->|Hnz].
    + apply Z.pow_pos_nonneg; lia.
    + assert (0 <= Z.lor a b) by (apply Z.lor_nonneg; lia).
      assert (0 < n).
      { destruct (Z.eq_dec n 0) as [->|]; [|lia].
        assert (a = 0) by (simpl in Ha; lia). assert (b = 0) by (simpl in Hb; lia).
        subst. exfalso. apply Hnz. reflexivity. }
      apply Z.log2_lt_pow2; [lia|].
      rewrite Z.log2_lor by lia.
      apply Z.max_lub_lt.
      * destruct (Z.eq_dec a 0) as [->|]; [simpl; lia|]. apply Z.log2_lt_pow2; lia.
      * destruct (Z.eq_dec b 0) as [->|]; [simpl; lia|]. apply Z.log2_lt_pow2; lia.
Qed.

(** Whatever the kernel left in [data.word], the swapped word is a 16-bit
    value. *)
Lemma swap_bytes_range (w : Z) : 0 <= swap_bytes w < 65536.
Proof.
  unfold swap_bytes.
  assert (Hlo : 0 <= Z.land w 0xFF < 256).
  { change 0xFF with (Z.ones 8). rewrite Z.land_ones by lia.
    apply Z.mod_pos_bound. lia. }
  assert (Hhi : 0 <= Z.shiftr (Z.land w 0xFF00) 8 < 256).
  { rewrite Z.shiftr_land. change (Z.shiftr 0xFF00 8) with (Z.ones 8).
    rewrite Z.land_ones by lia. apply Z.mod_pos_bound. lia. }
  change 65536 with (2 ^ 16). apply lor_below_pow2; [lia| |lia].
  rewrite Z.shiftl_mul_pow2 by lia. change (2 ^ 8) with 256. lia.
Qed.

End Bits.

(** ** The button diff *)

Section Buttons.

Lemma check_press_button_event (b : arcade_buttons) (last curr : Z) :
  check_press_button b (Z.land (Z.lxor last curr) 0xFFFF) curr (keycode b) =
  if xorb (Z.testbit last (button_bit b)) (Z.testbit curr (button_bit b))
  then [button_event b (negb (Z.testbit curr (button_bit b)))]
  else [].
Proof.
  unfold check_press_button, button_event.
  destruct (button_mask_bit b) as [-> Hb].
  rewrite !land_pow2_is_zero, negb_involutive by lia.
  rewrite testbit_low16, Z.lxor_spec by lia.
  destruct (xorb _ _); [|reflexivity].
  destruct (Z.testbit curr (button_bit b)); reflexivity.
Qed.

Lemma button_handler_flat_map (last curr : Z) :
  button_handler last curr =
  flat_map
    (fun b => check_press_button b (Z.land (Z.lxor last curr) 0xFFFF) curr (keycode b))
    all_buttons ++ [sync_report].
Proof.
  unfold button_handler, all_buttons. cbn [flat_map keycode].
  rewrite app_nil_r, <- !app_assoc. reflexivity.
Qed.

Lemma invert_mask_testbit (m k : Z) :
  0 <= k < 16 -> Z.testbit (invert_mask m) k = negb (Z.testbit m k).
Proof.
  intros Hk. unfold invert_mask. change 0xFFFF with (Z.ones 16).
  rewrite Z.lxor_spec, Z.ones_spec_low by lia. apply xorb_true_r.
Qed.

(** C2, counterexample: with the previous mask 0x0000 and the new mask
    0x0001, the event emitted for BUTTON_1A is a release ([pressed] false);
    no {BUTTON_1A, pressed=true} event is emitted. *)
Lemma button_handler_set_bit_is_release :
  button_handler 0x0000 0x0001 = [button_event BUTTON_1A false; sync_report]
  /\ ~ In (button_event BUTTON_1A true) (button_handler 0x0000 0x0001).
Proof.
  split; [reflexivity|].
  intros [H|[H|[]]]; discriminate H.
Qed.

(** C2, amended: for every pair of masks the diff emits, in the order of
    [all_buttons], exactly one event for each of the 14 buttons whose bit
    differs, and its [pressed] flag is true iff the button's bit is CLEAR in
    the new mask (active-low, as the chip reports it).  The code is the
    specification's active-high diff applied to the inverted masks: no
    normalization takes place in the code.  For the masks 0x0000 and 0x0001
    the only event is {BUTTON_1A, pressed=false}; for 0xFFFF and 0xFFFE it
    is {BUTTON_1A, pressed=true}. *)
Theorem button_handler_active_low (last curr : Z) :
  button_handler last curr =
    flat_map
      (fun b =>
         if xorb (Z.testbit last (button_bit b)) (Z.testbit curr (button_bit b))
         then [button_event b (negb (Z.testbit curr (button_bit b)))]
         else [])
      all_buttons ++ [sync_report]
  /\ button_handler last curr =
       spec_diff (invert_mask last) (invert_mask curr) ++ [sync_report]
  /\ button_handler 0x0000 0x0001 = [button_event BUTTON_1A false; sync_report]
  /\ button_handler 0xFFFF 0xFFFE = [button_event BUTTON_1A true; sync_report].
Proof.
  assert (Hmain : button_handler last curr =
    flat_map
      (fun b =>
         if xorb (Z.testbit last (button_bit b)) (Z.testbit curr (button_bit b))
         then [button_event b (negb (Z.testbit curr (button_bit b)))]
         else [])
      all_buttons ++ [sync_report]).
  { rewrite button_handler_flat_map. f_equal.
    apply flat_map_ext. intros b. apply check_press_button_event. }
  split; [exact Hmain|]. split; [|split; reflexivity].
  rewrite Hmain. f_equal. unfold spec_diff.
  apply flat_map_ext. intros b.
  destruct (button_mask_bit b) as [_ Hb].
  rewrite Z.lxor_spec, !invert_mask_testbit by lia.
  rewrite xorb_negb_negb. reflexivity.
Qed.

End Buttons.

(** ** Reading the button mask *)

Section ReadButtons.

(** C9: whatever the stored mask, when the write of the register address or
    the read of the four bytes fails, [read_buttons_pressed] returns -1 and
    the bonnet is as it was before the call; a call after which the stored
    mask differs had both transport operations succeed. *)
Theorem read_buttons_pressed_failure (bonnet : arcade_bonnet) (io : i2c_file) :
  (file_write io [INTCAPA] <> 1 \/ fst (file_read io 4) <> 4 ->
   read_buttons_pressed bonnet io = (-1, bonnet))
  /\ (state (snd (read_buttons_pressed bonnet io)) <> state bonnet ->
      file_write io [INTCAPA] = 1 /\ fst (file_read io 4) = 4).
Proof.
  unfold read_buttons_pressed.
  destruct (Z.eqb_spec (file_write io [INTCAPA]) 1) as [Hw|Hw]; cbn [negb].
  - destruct (file_read io 4) as [n buf]. cbn [fst].
    destruct (Z.eqb_spec n 4) as [Hn|Hn]; cbn [negb].
    + split; [intros [Hf|Hf]; contradiction|]. intros _. split; assumption.
    + split; [reflexivity|]. cbn [snd]. intros Hne. contradiction.
  - split; [reflexivity|]. cbn [snd]. intros Hne. contradiction.
Qed.

Lemma read_buttons_pressed_failure_witness :
  read_buttons_pressed {| state := 0xFFFF |} bonnet_short_read
    = (-1, {| state := 0xFFFF |})
  /\ read_buttons_pressed {| state := 0xFFFF |} bonnet_unwritable
     = (-1, {| state := 0xFFFF |}).
Proof.
  split.
  - apply (proj1 (read_buttons_pressed_failure {| state := 0xFFFF |} bonnet_short_read)).
    right. cbn. lia.
  - apply (proj1 (read_buttons_pressed_failure {| state := 0xFFFF |} bonnet_unwritable)).
    left. cbn. lia.
Defined.

(** When both operations succeed the mask is the 16-bit word made of the
    third and fourth byte, and the result tells whether it changed. *)
Lemma read_buttons_pressed_success (bonnet : arcade_bonnet) (io : i2c_file)
    (buf : list byte) :
  file_write io [INTCAPA] = 1 -> file_read io 4 = (4, buf) ->
  let val := Z.land (Z.lor (buf_at buf 2) (Z.shiftl (buf_at buf 3) 8)) 0xFFFF in
  read_buttons_pressed bonnet io =
    (if val =? state bonnet then 0 else 1, {| state := val |}).
Proof.
  intros Hw Hr. unfold read_buttons_pressed. rewrite Hw, Hr. reflexivity.
Qed.

End ReadButtons.

(** ** Decoding the gauge's registers *)

Section Registers.

Lemma initialized_cases (chip : ina219_config) :
  initialized chip -> chip = chip_16V_5A \/ chip = chip_23V_2A.
Proof.
  intros (m & range & o & s & io & H). unfold initialize_ina219 in H.
  destruct m; [|discriminate]. cbn [negb] in H.
  destruct (range mod 2 ^ 8 =? BUS_VOLTAGE_RANGE_23V_2A).
  - destruct (o <? 0); [discriminate|].
    destruct (negb (s =? 0)); [discriminate|].
    destruct (configure_ina219 _ io <? 0); [discriminate|].
    right. injection H as <-. reflexivity.
  - destruct (range mod 2 ^ 8 =? BUS_VOLTAGE_RANGE_16V_5A); [|discriminate].
    destruct (o <? 0); [discriminate|].
    destruct (negb (s =? 0)); [discriminate|].
    destruct (configure_ina219 _ io <? 0); [discriminate|].
    left. injection H as <-. reflexivity.
Qed.

Lemma initialized_16V_5A : initialized chip_16V_5A.
Proof. exists true, BUS_VOLTAGE_RANGE_16V_5A, 3, 0, (bus_reading 0). reflexivity. Qed.

(** C10: for a register word [v] in 32768..65535, [get_current] returns
    [(v - 65535) * current_lsb] and [get_shunt_voltage] returns [(v - 65535)
    * 0.00001], one unit above the two's-complement value [v - 65536]; the
    word 0xFFFF gives exactly 0. *)
Theorem high_word_decoding (chip : ina219_config) (io : bus) (v : Z) :
  i2c_write_word io REG_CALIBRATION (cal_value chip) = 0 ->
  32768 <= v <= 65535 ->
  (i2c_read_word io REG_CURRENT = v ->
     get_current chip io = (Z2double (v - 65535) * current_lsb chip)%float
     /\ (v = 0xFFFF -> initialized chip -> get_current chip io = 0%float))
  /\ (i2c_read_word io REG_SHUNTVOLTAGE = v ->
        get_shunt_voltage chip io = (Z2double (v - 65535) * 0.00001)%float
        /\ (v = 0xFFFF -> get_shunt_voltage chip io = 0%float))
  /\ v - 65535 = (v - 65536) + 1.
Proof.
  intros Hw Hv.
  assert (Hgt : (v >? 32767) = true) by (apply Z.gtb_lt; lia).
  split; [|split; [|lia]].
  - intros Hr.
    assert (Hc : get_current chip io = (Z2double (v - 65535) * current_lsb chip)%float).
    { unfold get_current. rewrite Hw, Hr. simpl. rewrite Hgt. reflexivity. }
    split; [exact Hc|].
    intros -> Hinit. rewrite Hc.
    destruct (initialized_cases chip Hinit) as [-> | ->]; reflexivity.
  - intros Hr.
    assert (Hs : get_shunt_voltage chip io = (Z2double (v - 65535) * 0.00001)%float).
    { unfold get_shunt_voltage. rewrite Hw, Hr. simpl. rewrite Hgt. reflexivity. }
    split; [exact Hs|].
    intros ->. rewrite Hs. reflexivity.
Qed.

Lemma high_word_decoding_witness :
  get_current chip_16V_5A (bus_reading 0xFFFF) = 0%float
  /\ get_shunt_voltage chip_16V_5A (bus_reading 0xFFFF) = 0%float
  /\ get_current chip_16V_5A (bus_reading 0x8000)
     = (Z2double (-32767) * 0.1524)%float.
Proof.
  assert (Hw : forall w, i2c_write_word (bus_reading w) REG_CALIBRATION
                 (cal_value chip_16V_5A) = 0) by reflexivity.
  assert (H1 : 32768 <= 0xFFFF <= 65535) by lia.
  assert (H2 : 32768 <= 0x8000 <= 65535) by lia.
  pose proof (high_word_decoding chip_16V_5A (bus_reading 0xFFFF) 0xFFFF (Hw _) H1)
    as (Hc & Hs & _).
  pose proof (high_word_decoding chip_16V_5A (bus_reading 0x8000) 0x8000 (Hw _) H2)
    as (Hc' & _ & _).
  split; [|split].
  - exact (proj2 (Hc eq_refl) eq_refl initialized_16V_5A).
  - exact (proj2 (Hs eq_refl) eq_refl).
  - exact (proj1 (Hc' eq_refl)).
Defined.

End Registers.

(** ** The current history *)

Section History.

Local Open Scope nat_scope.

(** The loop entered at [i] copies [h[0..i-1]] one place up, leaving [h[0]]
    where it is, and raises the flag when one of the copied samples is
    positive. *)
Lemma shift_samples_spec (i : nat) :
  forall (h : list float) (charging : Z),
    i < length h ->
    shift_samples i h charging =
      (take 1 h ++ take i h ++ drop (S i) h,
       if existsb positive_sample (take i h) then 1%Z else charging).
Proof.
  induction i as [|j IH]; intros h charging Hlen.
  - simpl. rewrite take_drop. reflexivity.
  - destruct (lookup_lt_is_Some_2 h j ltac:(lia)) as [x Hx].
    destruct (lookup_lt_is_Some_2 h (S j) Hlen) as [y Hy].
    cbn [shift_samples].
    rewrite (nth_lookup_Some h j 0%float x Hx).
    assert (Hnew : nth (S j) (<[S j:=x]> h) 0%float = x).
    { apply nth_lookup_Some. apply list_lookup_insert_eq. exact Hlen. }
    rewrite Hnew, IH by (rewrite length_insert; lia).
    rewrite !take_insert_ge by lia.
    rewrite drop_insert_ge by lia. replace (S j - S j) with 0 by lia.
    rewrite (drop_S h y (S j) Hy). cbn [insert list_insert].
    rewrite (take_S_r h j x Hx), existsb_app. cbn [existsb].
    rewrite orb_false_r. fold (positive_sample x).
    f_equal.
    + rewrite <- !app_assoc. reflexivity.
    + destruct (existsb positive_sample (take j h)), (positive_sample x);
        reflexivity.
Qed.

(** One push: the new sample lands in the first two places, the samples at
    1..126 move to 3..127, and both the sample at 0 and the sample at 127
    are gone. *)
Lemma push_sample_spec (current : float) (h : list float) :
  length h = BATTERY_SAMPLE_BUFFER ->
  push_sample current h =
    (current :: current :: take 126 (drop 1 h),
     if positive_sample current || existsb positive_sample (take 126 (drop 1 h))
     then 1%Z else 0%Z).
Proof.
  intros Hlen. unfold push_sample.
  destruct h as [|x t]; [discriminate|].
  cbn [insert list_insert]. unfold BATTERY_SAMPLE_BUFFER in *.
  simpl in Hlen. assert (Ht : length t = 127) by lia.
  rewrite shift_samples_spec by (simpl; lia).
  change (128 - 1) with 127.
  change (take 1 (current :: t)) with [current].
  change (take 127 (current :: t)) with (current :: take 126 t).
  change (drop 128 (current :: t)) with (drop 127 t).
  rewrite (drop_ge t 127) by lia.
  cbn [existsb drop]. rewrite app_nil_r. reflexivity.
Qed.

Lemma push_sample_length (current : float) (h : list float) :
  length h = BATTERY_SAMPLE_BUFFER ->
  length (fst (push_sample current h)) = BATTERY_SAMPLE_BUFFER.
Proof.
  intros Hlen. rewrite push_sample_spec by assumption.
  unfold BATTERY_SAMPLE_BUFFER in *. cbn [fst length].
  rewrite length_take, length_drop. lia.
Qed.

(** The flag of a push tells whether the window it leaves holds a positive
    sample. *)
Lemma push_sample_flag (current : float) (h : list float) :
  length h = BATTERY_SAMPLE_BUFFER ->
  snd (push_sample current h) =
    if existsb positive_sample (fst (push_sample current h)) then 1%Z else 0%Z.
Proof.
  intros Hlen. rewrite push_sample_spec by assumption.
  cbn [fst snd existsb].
  destruct (positive_sample current); reflexivity.
Qed.

Lemma push_samples_S (n : nat) (current : float) (h : list float) :
  push_samples (S n) current h =
    push_sample current (fst (push_samples n current h)).
Proof. cbn [push_samples]. reflexivity. Qed.

(** After [n >= 1] pushes of the same sample the window starts with [n + 1]
    copies of it. *)
Lemma push_samples_window (n : nat) (current : float) (h : list float) :
  length h = BATTERY_SAMPLE_BUFFER ->
  fst (push_samples (S n) current h) =
    take BATTERY_SAMPLE_BUFFER (replicate (S (S n)) current ++ drop 1 h).
Proof.
  intros Hlen. induction n as [|n IH].
  - cbn [push_samples fst]. rewrite push_sample_spec by assumption. reflexivity.
  - rewrite (push_samples_S (S n)).
    assert (Hw : length (fst (push_samples (S n) current h)) = BATTERY_SAMPLE_BUFFER).
    { rewrite IH, length_take, length_app, length_replicate, length_drop.
      unfold BATTERY_SAMPLE_BUFFER in *. lia. }
    rewrite push_sample_spec by exact Hw. rewrite IH.
    unfold BATTERY_SAMPLE_BUFFER. cbn [fst].
    change (replicate (S (S (S n))) current)
      with (current :: current :: replicate (S n) current).
    change (replicate (S (S n)) current)
      with (current :: replicate (S n) current).
    cbn [app]. change 128 with (S (S 126)) at 2. cbn [take].
    change (take 128 (current :: ?l)) with (current :: take 127 l).
    cbn [drop]. rewrite drop_0, take_take. reflexivity.
Qed.

Lemma push_samples_fill (n : nat) (current : float) (h : list float) :
  length h = BATTERY_SAMPLE_BUFFER -> 127 <= n ->
  fst (push_samples n current h) = replicate BATTERY_SAMPLE_BUFFER current.
Proof.
  intros Hlen Hn. destruct n as [|n]; [lia|].
  rewrite push_samples_window by assumption.
  rewrite take_app_le by (rewrite length_replicate; unfold BATTERY_SAMPLE_BUFFER; lia).
  rewrite take_replicate. f_equal. unfold BATTERY_SAMPLE_BUFFER. lia.
Qed.


Lemma existsb_replicate {A} (f : A -> bool) (n : nat) (x : A) :
  existsb f (replicate (S n) x) = f x.
Proof.
  induction n as [|n IH]; [apply orb_false_r|].
  change (replicate (S (S n)) x) with (x :: replicate (S n) x).
  cbn [existsb]. rewrite IH. apply orb_diag.
Qed.

(** After 128 pushes of one sample the flag only depends on its sign. *)
Lemma push_samples_flag (current : float) (h : list float) :
  length h = BATTERY_SAMPLE_BUFFER ->
  snd (push_samples BATTERY_SAMPLE_BUFFER current h) =
    if positive_sample current then 1%Z else 0%Z.
Proof.
  intros Hlen. unfold BATTERY_SAMPLE_BUFFER at 1.
  rewrite (push_samples_S 127).
  rewrite (push_samples_fill 127 current h Hlen) by lia.
  rewrite push_sample_flag by apply length_replicate.
  rewrite push_sample_spec by apply length_replicate.
  cbn [fst existsb]. rewrite drop_replicate, take_replicate.
  unfold BATTERY_SAMPLE_BUFFER. change (126 `min` (128 - 1)) with 126.
  rewrite (existsb_replicate positive_sample 125 current).
  destruct (positive_sample current); reflexivity.
Qed.

Lemma float_neq (x y : float) :
  (x =? x)%float = true -> (x =? y)%float = false -> x <> y.
Proof. intros Hx Hxy E. rewrite <- E in Hxy. congruence. Qed.

Lemma existsb_In_positive (l : list float) :
  existsb positive_sample l = true <->
  exists x, In x l /\ (0 <? x)%float = true.
Proof. apply existsb_exists. Qed.

(** C4: the first update after seeding, fed the register word 100 (15.24
    mA), leaves the sample in the first TWO places of the window, where the
    specification's window holds it once; the next update, fed the word 200
    (30.48 mA), again stores its sample twice and keeps only one 15.24,
    where the specification's window holds 30.48 once and both earlier
    entries. *)
Theorem push_sample_duplicates_newest :
  let c1 := get_current chip_16V_5A (bus_reading 100) in
  let c2 := get_current chip_16V_5A (bus_reading 200) in
  let b1 := fst (fst (battery_update chip_16V_5A (bus_reading 100)
                        after_200_ms 200 seeded_1000)) in
  let b2 := fst (fst (battery_update chip_16V_5A (bus_reading 200)
                        after_400_ms 200 b1)) in
  battery_current_history b1 = c1 :: c1 :: replicate 126 0%float
  /\ fifo_push c1 (battery_current_history seeded_1000)
     = c1 :: replicate 127 0%float
  /\ battery_current_history b1
     <> fifo_push c1 (battery_current_history seeded_1000)
  /\ battery_current_history b2 = c2 :: c2 :: c1 :: replicate 125 0%float
  /\ fifo_push c2 (battery_current_history b1)
     = c2 :: c1 :: c1 :: replicate 125 0%float.
Proof.
  cbv zeta.
  split; [vm_compute; reflexivity|]. split; [vm_compute; reflexivity|].
  split; [|split; vm_compute; reflexivity].
  intros E. apply (f_equal (fun l => nth 1 l 0%float)) in E.
  vm_compute in E. revert E. apply float_neq; reflexivity.
Qed.

(** C5: after every battery update the flag handed to the handler is 1
    exactly when the window the update leaves holds a strictly positive
    sample (and 0 otherwise); after 128 pushes of +5.0 it is 1, and after 128
    further pushes of -5.0 it is 0, whatever the window was before. *)
Theorem charging_flag_tracks_window (chip : ina219_config) (io : bus)
    (ts : timespec) (ms : Z) (b : battery) :
  length (battery_current_history b) = BATTERY_SAMPLE_BUFFER ->
  let r := battery_update chip io ts ms b in
  let window := battery_current_history (fst (fst r)) in
  let charging := snd r in
  (charging = 1%Z <-> exists x, In x window /\ (0 <? x)%float = true)
  /\ (charging = 1%Z \/ charging = 0%Z)
  /\ length window = BATTERY_SAMPLE_BUFFER
  /\ snd (push_samples 128 5 (battery_current_history b)) = 1%Z
  /\ snd (push_samples 128 (-5)
            (fst (push_samples 128 5 (battery_current_history b)))) = 0%Z.
Proof.
  intros Hlen r window charging.
  assert (Hr : window = fst (push_sample (get_current chip io) (battery_current_history b))
               /\ charging = snd (push_sample (get_current chip io) (battery_current_history b))).
  { subst window charging r. unfold battery_update.
    destruct (push_sample _ _) as [hist chg]. split; reflexivity. }
  destruct Hr as [Hwin Hchg].
  assert (Hflag := push_sample_flag (get_current chip io) _ Hlen).
  rewrite <- Hwin, <- Hchg in Hflag.
  split; [|split; [|split; [|split]]].
  - rewrite <- existsb_In_positive, Hflag.
    destruct (existsb positive_sample window); split; intros H; try reflexivity; discriminate.
  - rewrite Hflag. destruct (existsb positive_sample window); [left|right]; reflexivity.
  - rewrite Hwin. apply push_sample_length. exact Hlen.
  - apply (push_samples_flag 5 _ Hlen).
  - rewrite (push_samples_flag (-5)); [reflexivity|].
    rewrite (push_samples_fill 128 5 _ Hlen) by lia. apply length_replicate.
Qed.

Lemma charging_flag_tracks_window_witness :
  snd (battery_update chip_16V_5A (bus_reading 100) epoch 200
         {| battery_current_history := zero_history;
            last_capacity := 1000; last_ts := epoch |}) = 1%Z
  /\ snd (push_samples 128 5 zero_history) = 1%Z
  /\ snd (push_samples 128 (-5) (fst (push_samples 128 5 zero_history))) = 0%Z.
Proof.
  pose proof (charging_flag_tracks_window chip_16V_5A (bus_reading 100) epoch 200
                {| battery_current_history := zero_history;
                   last_capacity := 1000; last_ts := epoch |} eq_refl)
    as (H1 & _ & _ & H4 & H5).
  split; [|split; [exact H4|exact H5]].
  apply H1. exists (Z2double 100 * 0.1524)%float. split; [|reflexivity].
  vm_compute. left. reflexivity.
Defined.

End History.

(** ** Coulomb counting *)

Section Integration.

Lemma battery_update_fields (chip : ina219_config) (io : bus) (ts : timespec)
    (ms : Z) (b : battery) :
  let current := get_current chip io in
  battery_update chip io ts ms b =
    ({| battery_current_history := fst (push_sample current (battery_current_history b));
        last_capacity := new_capacity (last_capacity b) current ms;
        last_ts := ts |},
     (new_capacity (last_capacity b) current ms / Z2double BATTERY_CAPACITY_MAH)%float,
     snd (push_sample current (battery_current_history b))).
Proof.
  unfold battery_update. cbv zeta.
  destruct (push_sample _ _) as [history charging]. reflexivity.
Qed.




(** The order of the operations matters in double arithmetic: 100 mA over
    202 ms is not [(100 * 202) / 3.6e6]. *)
Lemma integration_grouping :
  new_capacity 0 100 202 = 0.0056111111111111119%float
  /\ (0 + (100 * Z2double 202) / 3.6e6)%float = 0.005611111111111111%float
  /\ new_capacity 0 100 202 <> (0 + (100 * Z2double 202) / 3.6e6)%float.
Proof.
  split; [reflexivity|]. split; [reflexivity|]. apply float_neq; reflexivity.
Qed.

(** When the calibration write fails the getter answers the sentinel. *)
Lemma get_current_write_failed (chip : ina219_config) (io : bus) :
  i2c_write_word io REG_CALIBRATION (cal_value chip) = -1 ->
  get_current chip io = READ_FAILED.
Proof. intros H. unfold get_current. rewrite H. reflexivity. Qed.

(** Every update on such a bus integrates the sentinel and pushes it. *)
Lemma battery_update_write_failed (chip : ina219_config) (io : bus)
    (ts : timespec) (ms : Z) (b : battery) :
  i2c_write_word io REG_CALIBRATION (cal_value chip) = -1 ->
  length (battery_current_history b) = BATTERY_SAMPLE_BUFFER ->
  let b' := fst (fst (battery_update chip io ts ms b)) in
  last_capacity b' = new_capacity (last_capacity b) READ_FAILED ms
  /\ battery_current_history b'
     = READ_FAILED :: READ_FAILED :: take 126 (drop 1 (battery_current_history b)).
Proof.
  intros Hw Hlen. cbv zeta. rewrite battery_update_fields. cbv zeta.
  rewrite (get_current_write_failed chip io Hw). cbn [fst last_capacity battery_current_history].
  rewrite push_sample_spec by exact Hlen. split; reflexivity.
Qed.

(** C1: on a bus where every transaction fails, the tick is not skipped:
    [get_current] answers the sentinel -255.0, the tick integrates it as a
    current and pushes it into the history, and goes on without an error.
    The capacity and the history are not what they were before the call. *)
Theorem failed_read_is_integrated :
  get_current chip_16V_5A bus_failing = READ_FAILED
  /\ exists acts b' g',
       battery_tick chip_16V_5A bus_failing system_ok after_200_ms
         seeded_1000 initial_globals = (acts, Running (b', g'))
       /\ last_capacity b' = 999.98583333333329%float
       /\ last_capacity b' <> last_capacity seeded_1000
       /\ battery_current_history b'
          = READ_FAILED :: READ_FAILED :: replicate 126 0%float
       /\ battery_current_history b' <> battery_current_history seeded_1000.
Proof.
  split; [reflexivity|].
  eexists _, _, _. split; [vm_compute; reflexivity|].
  split; [reflexivity|]. split; [apply float_neq; reflexivity|].
  split; [reflexivity|].
  intros E. apply (f_equal (fun l => nth 0 l 0%float)) in E.
  revert E. apply float_neq; reflexivity.
Qed.

End Integration.

(** ** The shutdown trigger *)

Section Shutdown.

Ltac split_conditions :=
  repeat match goal with
         | |- context [if ?c then _ else _] => destruct c eqn:?; cbn
         end.

Ltac to_arith :=
  repeat match goal with
         | H : negb _ = true |- _ => apply negb_true_iff in H
         | H : negb _ = false |- _ => apply negb_false_iff in H
         | H : (_ =? _) = true |- _ => apply Z.eqb_eq in H
         | H : (_ =? _) = false |- _ => apply Z.eqb_neq in H
         | H : (_ <? _) = true |- _ => apply Z.ltb_lt in H
         | H : (_ <? _) = false |- _ => apply Z.ltb_ge in H
         end.

(** Once the machine is powered off no further iteration runs. *)
Lemma run_stops_at_power_off (f : flags) (chip : ina219_config) (w : world)
    (ws : list world) (d : daemon) (acts : list action) :
  loop_body f chip w d = (acts, PoweredOff) ->
  run f chip (w :: ws) d = (acts, PoweredOff).
Proof. intros H. cbn [run]. rewrite H. reflexivity. Qed.

(** C6, counterexample: an update yields 0.09 with charging false, the
    status file cannot be opened, and the daemon exits with -1 before the
    shutdown check: the power-off request is made zero times. *)
Lemma no_power_off_when_status_file_fails :
  battery_handler system_no_status 0.09 0 initial_globals = ([], Exited (-1))
  /\ power_offs (fst (battery_handler system_no_status 0.09 0 initial_globals)) = 0%nat.
Proof. split; reflexivity. Qed.

(** C6, amended: an update with charging true never requests power-off,
    whatever the percentage; an update that gets past its file writes (the
    daemon does not exit on them) requests it exactly once when percentage
    <= 0.10 with charging false and not at all otherwise; when the request
    takes effect nothing further runs.  The daemon exits in the update
    exactly when a file it has to rewrite cannot be opened: the status file
    when the charging state differs from the recorded one, the capacity file
    when the rounded percentage does; the exit code is then -1 and the
    shutdown check is not reached, so no power-off is requested.  With both
    files opening, 0.09 and charging false requests it exactly once, 0.09
    and charging true does not. *)
Theorem power_off_trigger (sys : system) (percentage : float) (charging : Z)
    (g : globals) :
  let r := battery_handler sys percentage charging g in
  let p := int_of_round (percentage * 100)%float in
  (charging <> 0 -> power_offs (fst r) = 0%nat)
  /\ ((forall code, snd r <> Exited code) ->
      power_offs (fst r) =
        if (percentage <=? BATTERY_SHUTDOWN_LIMIT)%float && (charging =? 0)
        then 1%nat else 0%nat)
  /\ ((exists code, snd r = Exited code) <->
      (charging <> batt_charging_last g /\ status_open sys < 0)
      \/ (p <> batt_percentage_last g /\ capacity_open sys < 0))
  /\ (forall code, snd r = Exited code ->
        code = -1 /\ power_offs (fst r) = 0%nat)
  /\ (power_offs (fst r) = 1%nat -> reboot_returns sys = false ->
      snd r = PoweredOff)
  /\ (forall f chip w ws d acts,
        loop_body f chip w d = (acts, PoweredOff) ->
        run f chip (w :: ws) d = (acts, PoweredOff))
  /\ battery_handler system_ok 0.09 0 initial_globals
     = ([WriteStatus "Discharging"; WriteCapacity 9; RebootPowerOff], PoweredOff)
  /\ power_offs (fst (battery_handler system_ok 0.09 1 initial_globals)) = 0%nat.
Proof.
  intros r p. subst r p.
  split; [|split; [|split; [|split; [|split; [|split; [|split; reflexivity]]]]]].
  - intros Hc. apply Z.eqb_neq in Hc.
    unfold battery_handler, power_offs. rewrite Hc, andb_false_r.
    split_conditions; reflexivity.
  - unfold battery_handler, power_offs.
    destruct ((percentage <=? BATTERY_SHUTDOWN_LIMIT)%float && (charging =? 0)) eqn:Ht;
      split_conditions; intros Hrun; try reflexivity;
      exfalso; eapply Hrun; reflexivity.
  - unfold battery_handler. cbv zeta.
    generalize (int_of_round (percentage * 100)%float) as p. intros p.
    destruct ((percentage <=? BATTERY_SHUTDOWN_LIMIT)%float && (charging =? 0));
      split_conditions; to_arith;
      (split;
       [intros [code H]; try discriminate H;
        first [left; split; lia | right; split; lia]
       |intros [[? ?]|[? ?]]; first [lia | eexists; reflexivity]]).
  - unfold battery_handler, power_offs. intros code.
    destruct ((percentage <=? BATTERY_SHUTDOWN_LIMIT)%float && (charging =? 0)) eqn:Ht;
      split_conditions; intros Hexit; try discriminate Hexit;
      injection Hexit as <-; split; reflexivity.
  - unfold battery_handler, power_offs. intros Hone Hret. revert Hone. rewrite Hret.
    destruct ((percentage <=? BATTERY_SHUTDOWN_LIMIT)%float && (charging =? 0)) eqn:Ht;
      split_conditions; intros Hone; try reflexivity; discriminate Hone.
  - apply run_stops_at_power_off.
Qed.

Lemma power_off_trigger_witness :
  power_offs (fst (battery_handler system_ok 0.09 1 initial_globals)) = 0%nat
  /\ power_offs (fst (battery_handler system_ok 0.09 0 initial_globals)) = 1%nat
  /\ snd (battery_handler system_ok 0.09 0 initial_globals) = PoweredOff
  /\ power_offs (fst (battery_handler system_no_capacity 0.09 0 initial_globals))
     = 0%nat.
Proof.
  pose proof (power_off_trigger system_ok 0.09 1 initial_globals) as (H1 & _).
  pose proof (power_off_trigger system_ok 0.09 0 initial_globals)
    as (_ & H2 & _ & _ & H3 & _).
  pose proof (power_off_trigger system_no_capacity 0.09 0 initial_globals)
    as (_ & _ & _ & H4 & _).
  assert (Hrun : forall code,
             snd (battery_handler system_ok 0.09 0 initial_globals) <> Exited code)
    by (intros code; vm_compute; discriminate).
  split; [apply H1; lia|]. split; [exact (H2 Hrun)|].
  split; [apply H3; [exact (H2 Hrun)|reflexivity]|].
  apply (H4 (-1)). reflexivity.
Defined.

(** When [reboot] fails and returns, the handler returns too, and the next
    such update requests power-off again. *)
Lemma power_off_requested_again_when_reboot_fails :
  exists g,
    battery_handler system_no_reboot 0.09 0 initial_globals
      = ([WriteStatus "Discharging"; WriteCapacity 9; RebootPowerOff], Running g)
    /\ battery_handler system_no_reboot 0.09 0 g = ([RebootPowerOff], Running g).
Proof. eexists. split; reflexivity. Qed.

End Shutdown.

(** ** Rounding and order of doubles

    Subtraction and division of doubles round the exact result to the
    nearest double; the lemmas below read this off [SpecFloat]'s definitions
    and give that the rounding is monotone. *)

Section Rounding.

Ltac pos2 :=
  repeat first
    [ assumption
    | apply Z.mul_pos_pos
    | apply Z.pow_pos_nonneg
    | lia ].

Lemma pow2_pos (k : Z) : 0 <= k -> 0 < 2 ^ k.
Proof. intros H. apply Z.pow_pos_nonneg; lia. Qed.

Lemma pow2_succ (k : Z) : 0 <= k -> 2 ^ (k + 1) = 2 * 2 ^ k.
Proof. intros H. rewrite Z.pow_add_r by lia. change (2 ^ 1) with 2. lia. Qed.

Lemma pow2_le (a b : Z) : a <= b -> 2 ^ a <= 2 ^ b.
Proof. intros H. apply Z.pow_le_mono_r; lia. Qed.

Lemma pow2_lt (a b : Z) : 0 <= b -> a < b -> 2 ^ a < 2 ^ b.
Proof. intros Hb H. apply Z.pow_lt_mono_r; lia. Qed.

Lemma pow2_lt_inv (a b : Z) : 0 <= b -> 2 ^ a < 2 ^ b -> a < b.
Proof. intros Hb H. apply (Z.pow_lt_mono_r_iff 2); lia. Qed.

(** *** Digits *)

Lemma digits2_pos_bounds (p : positive) :
  2 ^ (Zpos (digits2_pos p) - 1) <= Zpos p < 2 ^ Zpos (digits2_pos p).
Proof.
  induction p as [p IH|p IH|]; cbn [digits2_pos].
  - rewrite Pos2Z.inj_succ.
    replace (Z.succ (Zpos (digits2_pos p)) - 1) with ((Zpos (digits2_pos p) - 1) + 1) by lia.
    replace (Z.succ (Zpos (digits2_pos p))) with (Zpos (digits2_pos p) + 1) by lia.
    rewrite !pow2_succ by lia. change (Zpos p~1) with (2 * Zpos p + 1).
    set (a := 2 ^ (Zpos _ - 1)) in *. set (b := 2 ^ Zpos _) in *. lia.
  - rewrite Pos2Z.inj_succ.
    replace (Z.succ (Zpos (digits2_pos p)) - 1) with ((Zpos (digits2_pos p) - 1) + 1) by lia.
    replace (Z.succ (Zpos (digits2_pos p))) with (Zpos (digits2_pos p) + 1) by lia.
    rewrite !pow2_succ by lia. change (Zpos p~0) with (2 * Zpos p).
    set (a := 2 ^ (Zpos _ - 1)) in *. set (b := 2 ^ Zpos _) in *. lia.
  - cbn. lia.
Qed.

Lemma Zdigits2_nonneg (m : Z) : 0 <= m -> 0 <= Zdigits2 m.
Proof. destruct m; cbn; lia. Qed.

Lemma Zdigits2_bounds (m : Z) :
  0 < m -> 0 < Zdigits2 m /\ 2 ^ (Zdigits2 m - 1) <= m < 2 ^ Zdigits2 m.
Proof.
  destruct m as [|p|p]; try lia. intros _. cbn [Zdigits2].
  split; [lia|apply digits2_pos_bounds].
Qed.

Lemma Zdigits2_unique (m d : Z) :
  0 < m -> 2 ^ (d - 1) <= m < 2 ^ d -> Zdigits2 m = d.
Proof.
  intros Hm [Hlo Hhi].
  destruct (Zdigits2_bounds m Hm) as (Hd & Hlo' & Hhi').
  assert (0 < d).
  { destruct (Z.lt_ge_cases 0 d) as [|Hd0]; [assumption|].
    assert (2 ^ d <= 2 ^ 0) by (apply pow2_le; lia).
    change (2 ^ 0) with 1 in *. lia. }
  assert (Zdigits2 m - 1 < d) by (apply pow2_lt_inv; lia).
  assert (d - 1 < Zdigits2 m) by (apply pow2_lt_inv; lia).
  lia.
Qed.

(** *** Shifting right with a round and a sticky bit *)

Lemma shr_1_spec (m : Z) (r s : bool) :
  0 <= m ->
  shr_1 (Build_shr_record m r s) = Build_shr_record (m / 2) (Z.odd m) (r || s).
Proof.
  intros Hm. rewrite <- Z.div2_div.
  destruct m as [|[p|p|]|]; try lia; reflexivity.
Qed.

Lemma loc_of_shr_record_of_loc (m : Z) (l : location) :
  loc_of_shr_record (shr_record_of_loc m l) = l.
Proof. destruct l as [|[]]; reflexivity. Qed.

Lemma shr_m_record_of_loc (m : Z) (l : location) :
  shr_m (shr_record_of_loc m l) = m.
Proof. destruct l as [|[]]; reflexivity. Qed.

Lemma record_of_double (p q : Z) :
  0 <= p -> 0 < q -> shr_1 (record_of p q) = record_of p (2 * q).
Proof.
  intros Hp Hq. unfold record_of.
  assert (Hm : 0 <= p / q) by (apply Z.div_pos; lia).
  assert (Hdiv : p / (2 * q) = p / q / 2).
  { rewrite Z.div_div by lia. f_equal. lia. }
  assert (Hmod : p mod (2 * q) = p mod q + q * ((p / q) mod 2)).
  { rewrite (Z.mul_comm 2 q). apply Z.rem_mul_r; lia. }
  pose proof (Z.mod_pos_bound p q Hq) as Hr.
  rewrite Zmod_odd in Hmod.
  unfold loc_of at 2. rewrite Hmod, Hdiv.
  unfold loc_of.
  destruct (Z.eqb_spec (p mod q) 0) as [H0|H0].
  - cbn [shr_record_of_loc]. rewrite shr_1_spec by exact Hm.
    destruct (Z.odd (p / q)).
    + destruct (Z.eqb_spec (p mod q + q * 1) 0) as [|_]; [lia|].
      replace (2 * (p mod q + q * 1) ?= 2 * q) with Eq
        by (symmetry; apply Z.compare_eq_iff; lia).
      reflexivity.
    + destruct (Z.eqb_spec (p mod q + q * 0) 0) as [_|]; [|lia]. reflexivity.
  - assert (Hrs : forall c m,
               shr_1 (shr_record_of_loc m (loc_Inexact c)) =
               shr_1 (Build_shr_record m true true)).
    { intros [] [|[]|[]]; reflexivity. }
    rewrite Hrs, shr_1_spec by exact Hm.
    destruct (Z.odd (p / q)).
    + destruct (Z.eqb_spec (p mod q + q * 1) 0) as [|_]; [lia|].
      replace (2 * (p mod q + q * 1) ?= 2 * q) with Gt
        by (symmetry; apply Z.compare_gt_iff; lia).
      reflexivity.
    + destruct (Z.eqb_spec (p mod q + q * 0) 0) as [|_]; [lia|].
      replace (2 * (p mod q + q * 0) ?= 2 * q) with Lt
        by (symmetry; apply Z.compare_lt_iff; lia).
      reflexivity.
Qed.

Lemma iter_shr_1 (n : positive) :
  forall p q, 0 <= p -> 0 < q ->
    iter_pos shr_1 n (record_of p q) = record_of p (q * 2 ^ Zpos n).
Proof.
  induction n as [n IH|n IH|]; intros p q Hp Hq; cbn [iter_pos].
  - assert (0 < 2 ^ Zpos n) by (apply pow2_pos; lia).
    rewrite record_of_double, IH, IH by pos2.
    f_equal. change (Zpos n~1) with (2 * Zpos n + 1).
    replace (2 * Zpos n + 1) with (Zpos n + Zpos n + 1) by lia.
    rewrite pow2_succ, Z.pow_add_r by lia. lia.
  - assert (0 < 2 ^ Zpos n) by (apply pow2_pos; lia).
    rewrite IH, IH by pos2.
    f_equal. change (Zpos n~0) with (2 * Zpos n).
    replace (2 * Zpos n) with (Zpos n + Zpos n) by lia.
    rewrite Z.pow_add_r by lia. lia.
  - rewrite record_of_double by assumption. f_equal. change (2 ^ 1) with 2. lia.
Qed.

Lemma shr_record_of (p q e n : Z) :
  0 <= p -> 0 < q -> 0 <= n ->
  shr (record_of p q) e n = (record_of p (q * 2 ^ n), e + n).
Proof.
  intros Hp Hq Hn. destruct n as [|n|n]; try lia.
  - cbn [shr]. change (2 ^ 0) with 1. rewrite Z.mul_1_r, Z.add_0_r. reflexivity.
  - cbn [shr]. rewrite iter_shr_1 by assumption. reflexivity.
Qed.

(** *** Floors and locations of equal rationals *)

Lemma div_cross (a b c d : Z) :
  0 < b -> 0 < d -> a * d = c * b ->
  a / b = c / d /\ loc_of a b = loc_of c d.
Proof.
  intros Hb Hd Heq.
  pose proof (Z.div_mod a b ltac:(lia)) as Ha.
  pose proof (Z.mod_pos_bound a b Hb) as Hra.
  pose proof (Z.div_mod c d ltac:(lia)) as Hc.
  pose proof (Z.mod_pos_bound c d Hd) as Hrc.
  unfold loc_of.
  set (A := a / b) in *. set (ra := a mod b) in *.
  set (C := c / d) in *. set (rc := c mod d) in *.
  clearbody A ra C rc.
  assert (HAC : A = C).
  { destruct (Z.lt_total A C) as [Hlt|[Heq'|Hgt]]; [exfalso|assumption|exfalso].
    - assert (A + 1 <= C) by lia.
      assert (b * (A + 1) * d <= b * C * d)
        by (apply Z.mul_le_mono_nonneg_r; [lia|apply Z.mul_le_mono_nonneg_l; lia]).
      assert (a * d < b * (A + 1) * d) by (apply Z.mul_lt_mono_pos_r; lia).
      assert (b * C * d <= c * b) by nia.
      lia.
    - assert (C + 1 <= A) by lia.
      assert (d * (C + 1) * b <= d * A * b)
        by (apply Z.mul_le_mono_nonneg_r; [lia|apply Z.mul_le_mono_nonneg_l; lia]).
      assert (c * b < d * (C + 1) * b) by (apply Z.mul_lt_mono_pos_r; lia).
      assert (d * A * b <= a * d) by nia.
      lia. }
  split; [exact HAC|].
  assert (Hr : ra * d = rc * b) by nia.
  destruct (Z.eqb_spec ra 0) as [H0|H0]; destruct (Z.eqb_spec rc 0) as [H0'|H0'];
    try reflexivity; try nia.
  f_equal.
  destruct (Z.compare_spec (2 * ra) b); destruct (Z.compare_spec (2 * rc) d);
    try reflexivity; exfalso; nia.
Qed.

(** *** Rounding to nearest, ties to even *)

Lemma rne_bounds (m : Z) (l : location) :
  m <= round_nearest_even m l <= m + 1.
Proof. destruct l as [|[]]; cbn; try destruct (Z.even m); lia. Qed.

Lemma rne_mono (P1 T1 P2 T2 : Z) :
  0 < T1 -> 0 < T2 -> P1 * T2 <= P2 * T1 ->
  round_nearest_even (P1 / T1) (loc_of P1 T1)
  <= round_nearest_even (P2 / T2) (loc_of P2 T2).
Proof.
  intros HT1 HT2 Hle.
  pose proof (Z.div_mod P1 T1 ltac:(lia)) as H1.
  pose proof (Z.mod_pos_bound P1 T1 HT1) as Hr1.
  pose proof (Z.div_mod P2 T2 ltac:(lia)) as H2.
  pose proof (Z.mod_pos_bound P2 T2 HT2) as Hr2.
  pose proof (rne_bounds (P1 / T1) (loc_of P1 T1)) as Hb1.
  pose proof (rne_bounds (P2 / T2) (loc_of P2 T2)) as Hb2.
  revert Hb1 Hb2. unfold loc_of.
  set (A1 := P1 / T1) in *. set (r1 := P1 mod T1) in *.
  set (A2 := P2 / T2) in *. set (r2 := P2 mod T2) in *.
  intros Hb1 Hb2. clearbody A1 r1 A2 r2.
  assert (HA : A1 <= A2).
  { destruct (Z.le_gt_cases A1 A2) as [|Hgt]; [assumption|exfalso].
    assert (A2 + 1 <= A1) by lia.
    assert (T2 * (A2 + 1) * T1 <= T2 * A1 * T1)
      by (apply Z.mul_le_mono_nonneg_r; [lia|apply Z.mul_le_mono_nonneg_l; lia]).
    assert (P2 * T1 < T2 * (A2 + 1) * T1) by (apply Z.mul_lt_mono_pos_r; lia).
    assert (T2 * A1 * T1 <= P1 * T2) by nia.
    lia. }
  destruct (Z.eq_dec A1 A2) as [HAeq|HAne]; [|lia].
  assert (Hr : r1 * T2 <= r2 * T1) by nia.
  clear Hb1 Hb2. rewrite <- HAeq.
  assert (Hpos : r1 <> 0 -> r2 <> 0).
  { intros Hn He. rewrite He in Hr.
    assert (0 < r1 * T2) by (apply Z.mul_pos_pos; lia). lia. }
  destruct (Z.eqb_spec r1 0) as [H0|H0]; destruct (Z.eqb_spec r2 0) as [H0'|H0'];
    cbn [round_nearest_even]; try lia.
  - destruct (2 * r2 ?= T2); try destruct (Z.even A1); lia.
  - destruct (Z.compare_spec (2 * r1) T1) as [He1|Hl1|Hg1];
      destruct (Z.compare_spec (2 * r2) T2) as [He2|Hl2|Hg2];
      try destruct (Z.even A1); try lia; exfalso.
    + assert (2 * r2 * T1 < T2 * T1) by (apply Z.mul_lt_mono_pos_r; lia).
      assert (T1 * T2 = 2 * r1 * T2) by (rewrite He1; reflexivity). lia.
    + assert (T1 * T2 < 2 * r1 * T2) by (apply Z.mul_lt_mono_pos_r; lia).
      assert (2 * r2 * T1 = T2 * T1) by (rewrite He2; reflexivity). lia.
    + assert (2 * r2 * T1 < T2 * T1) by (apply Z.mul_lt_mono_pos_r; lia).
      assert (T1 * T2 < 2 * r1 * T2) by (apply Z.mul_lt_mono_pos_r; lia).
      lia.
    + assert (2 * r2 * T1 < T2 * T1) by (apply Z.mul_lt_mono_pos_r; lia).
      assert (T1 * T2 < 2 * r1 * T2) by (apply Z.mul_lt_mono_pos_r; lia).
      lia.
Qed.

(** *** The shift of a rational *)

Lemma sh_spec (P Q : Z) :
  0 <= P -> 0 < Q ->
  0 <= sh P Q
  /\ P < 2 ^ (53 + sh P Q) * Q
  /\ (0 < sh P Q -> 2 ^ (52 + sh P Q) * Q <= P).
Proof.
  intros HP HQ. unfold sh.
  pose proof (Z.div_mod P Q ltac:(lia)) as Hdm.
  pose proof (Z.mod_pos_bound P Q HQ) as Hr.
  assert (HM : 0 <= P / Q) by (apply Z.div_pos; lia).
  set (M := P / Q) in *.
  split; [lia|].
  destruct (Z.eq_dec M 0) as [HM0|HM0].
  - rewrite HM0. cbn [Zdigits2]. replace (Z.max (0 - 53) 0) with 0 by lia.
    split; [|lia].
    assert (0 < 2 ^ (53 + 0)) by (apply pow2_pos; lia).
    nia.
  - destruct (Zdigits2_bounds M ltac:(lia)) as (Hd & Hlo & Hhi).
    set (d := Zdigits2 M) in *.
    split.
    + assert (2 ^ d <= 2 ^ (53 + Z.max (d - 53) 0)) by (apply pow2_le; lia).
      assert (P < (M + 1) * Q) by lia.
      assert ((M + 1) * Q <= 2 ^ d * Q) by (apply Z.mul_le_mono_nonneg_r; lia).
      assert (2 ^ d * Q <= 2 ^ (53 + Z.max (d - 53) 0) * Q)
        by (apply Z.mul_le_mono_nonneg_r; lia).
      lia.
    + intros Hs. replace (52 + Z.max (d - 53) 0) with (d - 1) by lia.
      assert (2 ^ (d - 1) * Q <= M * Q) by (apply Z.mul_le_mono_nonneg_r; lia).
      lia.
Qed.

Lemma sh_unique (P Q s : Z) :
  0 <= P -> 0 < Q -> 0 <= s ->
  P < 2 ^ (53 + s) * Q -> (0 < s -> 2 ^ (52 + s) * Q <= P) ->
  sh P Q = s.
Proof.
  intros HP HQ Hs Hhi Hlo. unfold sh.
  assert (HM : 0 <= P / Q) by (apply Z.div_pos; lia).
  assert (HMhi : P / Q < 2 ^ (53 + s)).
  { apply Z.div_lt_upper_bound; [lia|]. lia. }
  destruct (Z.eq_dec (P / Q) 0) as [HM0|HM0].
  - rewrite HM0. cbn [Zdigits2].
    destruct (Z.eq_dec s 0) as [->|Hs0]; [reflexivity|exfalso].
    assert (2 ^ (52 + s) <= P / Q).
    { apply Z.div_le_lower_bound; [lia|]. rewrite Z.mul_comm. apply Hlo. lia. }
    assert (0 < 2 ^ (52 + s)) by (apply pow2_pos; lia).
    lia.
  - destruct (Z.eq_dec s 0) as [->|Hs0].
    + destruct (Zdigits2_bounds (P / Q) ltac:(lia)) as (Hd & Hlo' & Hhi').
      assert (Zdigits2 (P / Q) - 1 < 53 + 0) by (apply pow2_lt_inv; lia).
      lia.
    + assert (2 ^ (52 + s) <= P / Q).
      { apply Z.div_le_lower_bound; [lia|]. rewrite Z.mul_comm. apply Hlo. lia. }
      rewrite (Zdigits2_unique (P / Q) (53 + s)); [lia|lia|].
      replace (53 + s - 1) with (52 + s) by lia. lia.
Qed.

(** *** Rounding is monotone *)

Lemma rv_mono (P1 Q1 P2 Q2 : Z) :
  0 <= P1 -> 0 < Q1 -> 0 <= P2 -> 0 < Q2 ->
  P1 * Q2 <= P2 * Q1 -> rv P1 Q1 <= rv P2 Q2.
Proof.
  intros HP1 HQ1 HP2 HQ2 Hle. unfold rv. cbv zeta.
  destruct (sh_spec P1 Q1 HP1 HQ1) as (Hs1 & Hhi1 & Hlo1).
  destruct (sh_spec P2 Q2 HP2 HQ2) as (Hs2 & Hhi2 & Hlo2).
  set (s1 := sh P1 Q1) in *. set (s2 := sh P2 Q2) in *.
  assert (Hp1 : 0 < 2 ^ s1) by (apply pow2_pos; lia).
  assert (Hp2 : 0 < 2 ^ s2) by (apply pow2_pos; lia).
  assert (HT1 : 0 < Q1 * 2 ^ s1) by pos2.
  assert (HT2 : 0 < Q2 * 2 ^ s2) by pos2.
  assert (Hs : s1 <= s2).
  { destruct (Z.le_gt_cases s1 s2) as [|Hgt]; [assumption|exfalso].
    assert (H1 : 2 ^ (52 + s1) * Q1 <= P1) by (apply Hlo1; lia).
    assert (H2 : 2 ^ (53 + s2) <= 2 ^ (52 + s1)) by (apply pow2_le; lia).
    assert (0 < 2 ^ (53 + s2)) by (apply pow2_pos; lia).
    assert (P2 * Q1 < 2 ^ (53 + s2) * Q2 * Q1) by (apply Z.mul_lt_mono_pos_r; lia).
    assert (2 ^ (52 + s1) * Q1 * Q2 <= P1 * Q2)
      by (apply Z.mul_le_mono_nonneg_r; lia).
    assert (2 ^ (53 + s2) * (Q2 * Q1) <= 2 ^ (52 + s1) * (Q2 * Q1))
      by (apply Z.mul_le_mono_nonneg_r; [pos2|assumption]).
    lia. }
  destruct (Z.eq_dec s1 s2) as [Heq|Hne].
  - rewrite <- Heq. apply Z.mul_le_mono_nonneg_r; [lia|].
    apply rne_mono; try assumption.
    + rewrite <- Heq in HT2. exact HT2.
    + replace (P1 * (Q2 * 2 ^ s1)) with (P1 * Q2 * 2 ^ s1) by lia.
      replace (P2 * (Q1 * 2 ^ s1)) with (P2 * Q1 * 2 ^ s1) by lia.
      apply Z.mul_le_mono_nonneg_r; lia.
  - pose proof (rne_bounds (P1 / (Q1 * 2 ^ s1)) (loc_of P1 (Q1 * 2 ^ s1))) as Hb1.
    pose proof (rne_bounds (P2 / (Q2 * 2 ^ s2)) (loc_of P2 (Q2 * 2 ^ s2))) as Hb2.
    assert (HA1 : P1 / (Q1 * 2 ^ s1) < 2 ^ 53).
    { apply Z.div_lt_upper_bound; [assumption|].
      rewrite Z.pow_add_r in Hhi1 by lia. lia. }
    assert (HA2 : 2 ^ 52 <= P2 / (Q2 * 2 ^ s2)).
    { apply Z.div_le_lower_bound; [assumption|].
      specialize (Hlo2 ltac:(lia)). rewrite Z.pow_add_r in Hlo2 by lia. lia. }
    set (m1 := round_nearest_even _ _) in *.
    set (m2 := round_nearest_even (P2 / _) _) in *.
    assert (m1 * 2 ^ s1 <= 2 ^ 53 * 2 ^ s1) by (apply Z.mul_le_mono_nonneg_r; lia).
    assert (2 ^ 52 * 2 ^ s2 <= m2 * 2 ^ s2) by (apply Z.mul_le_mono_nonneg_r; lia).
    assert (2 ^ (53 + s1) <= 2 ^ (52 + s2)) by (apply pow2_le; lia).
    rewrite !Z.pow_add_r in * by lia. lia.
Qed.

Lemma rv_exact (m k : Z) :
  0 <= k -> 0 < m < 2 ^ 53 -> (0 < k -> 2 ^ 52 <= m) ->
  rv (m * 2 ^ k) 1 = m * 2 ^ k.
Proof.
  intros Hk Hm Hn.
  assert (Hp : 0 < 2 ^ k) by (apply pow2_pos; lia).
  assert (Hs : sh (m * 2 ^ k) 1 = k).
  { apply sh_unique; try lia.
    - rewrite Z.pow_add_r by lia. nia.
    - intros Hk0. specialize (Hn Hk0). rewrite Z.pow_add_r by lia. nia. }
  unfold rv. cbv zeta. rewrite Hs.
  replace (1 * 2 ^ k) with (2 ^ k) by lia.
  unfold loc_of. rewrite Z.mod_mul, Z.div_mul by lia. reflexivity.
Qed.

Lemma rv_0 (Q : Z) : 0 < Q -> rv 0 Q = 0.
Proof.
  intros HQ. unfold rv, sh, loc_of. rewrite Z.div_0_l by lia.
  cbn [Zdigits2]. change (Z.max (0 - 53) 0) with 0. change (2 ^ 0) with 1.
  rewrite Z.mul_1_r, Z.div_0_l, Z.mod_0_l by lia. reflexivity.
Qed.


(** *** [binary_round_aux] *)

Lemma fexp_eq (e : Z) : fexp prec emax e = Z.max (e - 53) (-1074).
Proof. reflexivity. Qed.

Lemma binary_round_aux_finish (sx : bool) (mx ex : Z) (lx : location) :
  binary_round_aux prec emax sx mx ex lx =
  bra_finish sx
    (round_nearest_even (shr_m (fst (shr_fexp prec emax mx ex lx)))
       (loc_of_shr_record (fst (shr_fexp prec emax mx ex lx))))
    (snd (shr_fexp prec emax mx ex lx)).
Proof.
  unfold binary_round_aux, bra_finish.
  destruct (shr_fexp prec emax mx ex lx) as [mrs' e']. reflexivity.
Qed.

Lemma bra_finish_ord (m1 E : Z) :
  0 <= m1 <= 2 ^ 53 -> -1074 <= E -> (-1074 < E -> 2 ^ 52 <= m1) ->
  pos_sf (bra_finish false m1 E) = true
  /\ ord (bra_finish false m1 E) = Z.min (m1 * 2 ^ (E + 1074)) TOP.
Proof.
  intros Hm HE Hnorm. unfold bra_finish, shr_fexp. rewrite fexp_eq.
  cbn [shr_record_of_loc].
  assert (Hp : 0 < 2 ^ (E + 1074)) by (apply pow2_pos; lia).
  change (emax - prec) with 971.
  destruct (Z.eq_dec m1 (2 ^ 53)) as [->|Hne].
  - change (Zdigits2 (2 ^ 53)) with 54.
    replace (Z.max (54 + E - 53) (-1074) - E) with 1 by lia.
    change (2 ^ 53) with 9007199254740992.
    cbn [shr iter_pos shr_1 orb shr_m].
    change 9007199254740992 with (2 * 2 ^ 52).
    change (Z.pos 4503599627370496) with (2 ^ 52).
    destruct (Z.leb_spec (E + 1) 971) as [Hle|Hgt]; cbn [pos_sf ord negb];
      (split; [reflexivity|]).
    + replace (E + 1 + 1074) with (E + 1074 + 1) by lia. rewrite pow2_succ by lia.
      assert (2 ^ 53 * 2 ^ (E + 1074) <= 2 ^ 53 * 2 ^ 2044).
      { apply Z.mul_le_mono_nonneg_l; [lia|apply pow2_le; lia]. }
      assert (2 ^ 53 * 2 ^ 2044 < TOP) by (unfold TOP; rewrite <- Z.pow_add_r by lia; apply pow2_lt; lia).
      change (2 * 2 ^ 52) with (2 ^ 53). lia.
    + assert (2 ^ 53 * 2 ^ 2045 <= 2 ^ 53 * 2 ^ (E + 1074)).
      { apply Z.mul_le_mono_nonneg_l; [lia|apply pow2_le; lia]. }
      assert (2 ^ 53 * 2 ^ 2045 = TOP) by (unfold TOP; rewrite <- Z.pow_add_r by lia; reflexivity).
      change (2 * 2 ^ 52) with (2 ^ 53). lia.
  - assert (Hd : Zdigits2 m1 <= 53).
    { destruct (Z.eq_dec m1 0) as [->|Hm0]; [cbn; lia|].
      destruct (Zdigits2_bounds m1 ltac:(lia)) as (Hd & Hlo & _).
      assert (Zdigits2 m1 - 1 < 53) by (apply pow2_lt_inv; lia).
      lia. }
    assert (Hn : Z.max (Zdigits2 m1 + E - 53) (-1074) - E <= 0) by lia.
    assert (Hshr : shr {| shr_m := m1; shr_r := false; shr_s := false |} E
                     (Z.max (Zdigits2 m1 + E - 53) (-1074) - E)
                   = ({| shr_m := m1; shr_r := false; shr_s := false |}, E)).
    { destruct (Z.max (Zdigits2 m1 + E - 53) (-1074) - E); try reflexivity; lia. }
    rewrite Hshr. cbn [shr_m].
    destruct m1 as [|m|m]; [| |lia].
    + cbn [pos_sf ord]. split; [reflexivity|].
      assert (0 < TOP) by (apply pow2_pos; lia). lia.
    + destruct (Z.leb_spec E 971) as [Hle|Hgt]; cbn [pos_sf ord negb];
        (split; [reflexivity|]).
      * assert (Z.pos m * 2 ^ (E + 1074) < 2 ^ 53 * 2 ^ (E + 1074))
          by (apply Z.mul_lt_mono_pos_r; lia).
        assert (2 ^ 53 * 2 ^ (E + 1074) <= 2 ^ 53 * 2 ^ 2045).
        { apply Z.mul_le_mono_nonneg_l; [lia|apply pow2_le; lia]. }
        assert (2 ^ 53 * 2 ^ 2045 = TOP) by (unfold TOP; rewrite <- Z.pow_add_r by lia; reflexivity).
        lia.
      * specialize (Hnorm ltac:(lia)).
        assert (2 ^ 52 * 2 ^ (E + 1074) <= Z.pos m * 2 ^ (E + 1074))
          by (apply Z.mul_le_mono_nonneg_r; lia).
        assert (2 ^ 52 * 2 ^ 2046 <= 2 ^ 52 * 2 ^ (E + 1074)).
        { apply Z.mul_le_mono_nonneg_l; [lia|apply pow2_le; lia]. }
        assert (2 ^ 52 * 2 ^ 2046 = TOP) by (unfold TOP; rewrite <- Z.pow_add_r by lia; reflexivity).
        lia.
Qed.

Lemma binary_round_aux_ord (p q e P Q : Z) :
  0 <= p -> 0 < q -> 0 <= P -> 0 < Q ->
  e <= fexp prec emax (Zdigits2 (p / q) + e) ->
  P * q * 2 ^ Z.max 0 (- (e + 1074)) = p * Q * 2 ^ Z.max 0 (e + 1074) ->
  pos_sf (binary_round_aux prec emax false (p / q) e (loc_of p q)) = true
  /\ ord (binary_round_aux prec emax false (p / q) e (loc_of p q))
     = Z.min (rv P Q) TOP.
Proof.
  intros Hp Hq HP HQ Hpre Hrel.
  rewrite binary_round_aux_finish. unfold shr_fexp.
  change (shr_record_of_loc (p / q) (loc_of p q)) with (record_of p q).
  rewrite fexp_eq in Hpre |- *.
  rewrite shr_record_of by lia. cbn [fst snd].
  unfold record_of. rewrite !shr_m_record_of_loc, !loc_of_shr_record_of_loc.
  assert (HM : 0 <= p / q) by (apply Z.div_pos; lia).
  pose proof (Z.div_mod p q ltac:(lia)) as Hdm.
  pose proof (Z.mod_pos_bound p q Hq) as Hrm.
  set (M := p / q) in *. set (d := Zdigits2 M) in *.
  assert (Hdb : M <> 0 -> 0 < d /\ 2 ^ (d - 1) <= M < 2 ^ d).
  { intros HM0. apply Zdigits2_bounds. lia. }
  assert (Hd0 : M = 0 -> d = 0) by (intros HM0; unfold d; rewrite HM0; reflexivity).
  clearbody d. set (r := p mod q) in *. clearbody M r.
  set (E := Z.max (d + e - 53) (-1074)) in *.
  replace (e + (E - e)) with E by lia.
  set (n := E - e). set (s := E + 1074).
  assert (Hn : 0 <= n) by lia. assert (Hs : 0 <= s) by lia.
  assert (Hpn : 0 < 2 ^ n) by (apply pow2_pos; lia).
  assert (Hps : 0 < 2 ^ s) by (apply pow2_pos; lia).
  assert (Hphi : p < 2 ^ (53 + n) * q).
  { destruct (Z.eq_dec M 0) as [HM0|HM0].
    - assert (0 < 2 ^ (53 + n)) by (apply pow2_pos; lia). nia.
    - destruct (Hdb HM0) as (Hd & Hlo & Hhi).
      assert (2 ^ d <= 2 ^ (53 + n)) by (apply pow2_le; lia).
      assert ((M + 1) * q <= 2 ^ d * q) by (apply Z.mul_le_mono_nonneg_r; lia).
      assert (2 ^ d * q <= 2 ^ (53 + n) * q) by (apply Z.mul_le_mono_nonneg_r; lia).
      lia. }
  assert (Hplo : 0 < s -> 2 ^ (52 + n) * q <= p).
  { intros Hs0.
    destruct (Z.eq_dec M 0) as [HM0|HM0]; [specialize (Hd0 HM0); lia|].
    destruct (Hdb HM0) as (Hd & Hlo & Hhi).
    replace (52 + n) with (d - 1) by lia.
    assert (2 ^ (d - 1) * q <= M * q) by (apply Z.mul_le_mono_nonneg_r; lia).
    lia. }
  assert (Hcross : p * (Q * 2 ^ s) = P * (q * 2 ^ n)).
  { destruct (Z.le_gt_cases 0 (e + 1074)) as [Hk|Hk].
    - replace (Z.max 0 (- (e + 1074))) with 0 in Hrel by lia.
      replace (Z.max 0 (e + 1074)) with (e + 1074) in Hrel by lia.
      change (2 ^ 0) with 1 in Hrel.
      replace s with (n + (e + 1074)) by lia. rewrite Z.pow_add_r by lia.
      assert (Hx : P * q * 2 ^ n = p * Q * 2 ^ (e + 1074) * 2 ^ n)
        by (rewrite <- Hrel; lia).
      lia.
    - replace (Z.max 0 (- (e + 1074))) with (- (e + 1074)) in Hrel by lia.
      replace (Z.max 0 (e + 1074)) with 0 in Hrel by lia.
      change (2 ^ 0) with 1 in Hrel.
      replace n with (s + - (e + 1074)) by lia. rewrite Z.pow_add_r by lia.
      assert (Hx : P * q * 2 ^ (- (e + 1074)) * 2 ^ s = p * Q * 1 * 2 ^ s)
        by (rewrite Hrel; reflexivity).
      lia. }
  assert (Hq1 : 0 < q * 2 ^ n) by pos2.
  assert (HQ1 : 0 < Q * 2 ^ s) by pos2.
  destruct (div_cross p (q * 2 ^ n) P (Q * 2 ^ s) Hq1 HQ1 Hcross) as [Hdiv Hloc].
  assert (HPhi : P < 2 ^ (53 + s) * Q).
  { rewrite Z.pow_add_r in Hphi |- * by lia.
    assert (Hx : p * (Q * 2 ^ s) < 2 ^ 53 * 2 ^ n * q * (Q * 2 ^ s))
      by (apply Z.mul_lt_mono_pos_r; lia).
    rewrite Hcross in Hx.
    apply (Z.mul_lt_mono_pos_r (q * 2 ^ n)); [assumption|]. lia. }
  assert (HPlo : 0 < s -> 2 ^ (52 + s) * Q <= P).
  { intros Hs0. specialize (Hplo Hs0).
    rewrite Z.pow_add_r in Hplo |- * by lia.
    assert (Hx : 2 ^ 52 * 2 ^ n * q * (Q * 2 ^ s) <= p * (Q * 2 ^ s))
      by (apply Z.mul_le_mono_nonneg_r; lia).
    rewrite Hcross in Hx.
    apply (Z.mul_le_mono_pos_r _ _ (q * 2 ^ n)); [assumption|]. lia. }
  assert (Hsh : sh P Q = s) by (apply sh_unique; assumption).
  unfold rv. cbv zeta. rewrite Hsh, <- Hdiv, <- Hloc.
  pose proof (rne_bounds (p / (q * 2 ^ n)) (loc_of p (q * 2 ^ n))) as Hb.
  assert (HA0 : 0 <= p / (q * 2 ^ n)) by (apply Z.div_pos; lia).
  assert (HA1 : p / (q * 2 ^ n) < 2 ^ 53).
  { apply Z.div_lt_upper_bound; [assumption|].
    rewrite Z.pow_add_r in Hphi by lia. lia. }
  assert (HA2 : 0 < s -> 2 ^ 52 <= p / (q * 2 ^ n)).
  { intros Hs0. apply Z.div_le_lower_bound; [assumption|].
    specialize (Hplo Hs0). rewrite Z.pow_add_r in Hplo by lia. lia. }
  apply bra_finish_ord; [lia|lia|].
  intros HE. specialize (HA2 ltac:(lia)). lia.
Qed.


(** *** The order of doubles *)

Lemma TOP_pos : 0 < TOP.
Proof. apply pow2_pos. lia. Qed.

Lemma valid_finite (s : bool) (m : positive) (e : Z) :
  valid_binary (S754_finite s m e) = true ->
  -1074 <= e <= 971 /\ Zpos m < 2 ^ 53 /\ (-1074 < e -> 2 ^ 52 <= Zpos m).
Proof.
  unfold SpecFloat.valid_binary, bounded, canonical_mantissa.
  rewrite fexp_eq. change (emax - prec) with 971.
  intros H. apply andb_true_iff in H. destruct H as [Hc Hb].
  apply Z.eqb_eq in Hc. apply Z.leb_le in Hb.
  pose proof (digits2_pos_bounds m) as [Hlo Hhi].
  set (d := Zpos (digits2_pos m)) in *.
  assert (Hd : 0 < d) by (unfold d; lia). clearbody d.
  split; [lia|]. split.
  - assert (2 ^ d <= 2 ^ 53) by (apply pow2_le; lia). lia.
  - intros He. replace d with 53 in Hlo by lia. exact Hlo.
Qed.

Lemma valid_finite_ord (s : bool) (m : positive) (e : Z) :
  valid_binary (S754_finite s m e) = true ->
  0 < Zpos m * 2 ^ (e + 1074) < TOP.
Proof.
  intros H. destruct (valid_finite s m e H) as (He & Hm & _).
  assert (0 < 2 ^ (e + 1074)) by (apply pow2_pos; lia).
  split; [apply Z.mul_pos_pos; lia|].
  assert (Zpos m * 2 ^ (e + 1074) < 2 ^ 53 * 2 ^ (e + 1074))
    by (apply Z.mul_lt_mono_pos_r; lia).
  assert (2 ^ 53 * 2 ^ (e + 1074) <= 2 ^ 53 * 2 ^ 2045).
  { apply Z.mul_le_mono_nonneg_l; [lia|apply pow2_le; lia]. }
  assert (2 ^ 53 * 2 ^ 2045 = TOP)
    by (unfold TOP; rewrite <- Z.pow_add_r by lia; reflexivity).
  lia.
Qed.

Lemma finite_lt (s1 s2 : bool) (m1 m2 : positive) (e1 e2 : Z) :
  valid_binary (S754_finite s1 m1 e1) = true ->
  valid_binary (S754_finite s2 m2 e2) = true ->
  e1 < e2 ->
  Zpos m1 * 2 ^ (e1 + 1074) < Zpos m2 * 2 ^ (e2 + 1074).
Proof.
  intros H1 H2 He.
  destruct (valid_finite s1 m1 e1 H1) as (He1 & Hm1 & _).
  destruct (valid_finite s2 m2 e2 H2) as (He2 & _ & Hm2).
  specialize (Hm2 ltac:(lia)).
  assert (0 < 2 ^ (e1 + 1074)) by (apply pow2_pos; lia).
  assert (0 < 2 ^ (e2 + 1074)) by (apply pow2_pos; lia).
  assert (Zpos m1 * 2 ^ (e1 + 1074) < 2 ^ 53 * 2 ^ (e1 + 1074))
    by (apply Z.mul_lt_mono_pos_r; lia).
  assert (2 ^ 52 * 2 ^ (e2 + 1074) <= Zpos m2 * 2 ^ (e2 + 1074))
    by (apply Z.mul_le_mono_nonneg_r; lia).
  assert (2 ^ (53 + (e1 + 1074)) <= 2 ^ (52 + (e2 + 1074))) by (apply pow2_le; lia).
  assert (2 ^ (53 + (e1 + 1074)) = 2 ^ 53 * 2 ^ (e1 + 1074))
    by (apply Z.pow_add_r; lia).
  assert (2 ^ (52 + (e2 + 1074)) = 2 ^ 52 * 2 ^ (e2 + 1074))
    by (apply Z.pow_add_r; lia).
  lia.
Qed.

Ltac cmp :=
  first
    [ reflexivity
    | f_equal; symmetry;
      first [ apply Z.compare_eq_iff; lia
            | apply Z.compare_lt_iff; lia
            | apply Z.compare_gt_iff; lia ] ].

Lemma SFcompare_ord (x y : spec_float) :
  valid_binary x = true -> valid_binary y = true ->
  num_sf x = true -> num_sf y = true ->
  SFcompare x y = Some (ord x ?= ord y).
Proof.
  pose proof TOP_pos as HT.
  intros Hx Hy Hnx Hny.
  destruct x as [sx|sx| |sx mx ex]; try discriminate Hnx;
    destruct y as [sy|sy| |sy my ey]; try discriminate Hny;
    try pose proof (valid_finite_ord _ _ _ Hx) as Hvx;
    try pose proof (valid_finite_ord _ _ _ Hy) as Hvy;
    cbn [SFcompare ord].
  - reflexivity.
  - destruct sy; cmp.
  - destruct sy; cmp.
  - destruct sx; cmp.
  - destruct sx, sy; cmp.
  - destruct sx, sy; cmp.
  - destruct sx; cmp.
  - destruct sx, sy; cmp.
  - change (Pos.compare_cont Eq mx my) with (Zpos mx ?= Zpos my).
    assert (Hlt : ex < ey -> Zpos mx * 2 ^ (ex + 1074) < Zpos my * 2 ^ (ey + 1074))
      by (apply (finite_lt sx sy); assumption).
    assert (Hgt : ey < ex -> Zpos my * 2 ^ (ey + 1074) < Zpos mx * 2 ^ (ex + 1074))
      by (apply (finite_lt sy sx); assumption).
    assert (Heq : ex = ey ->
                  (Zpos mx ?= Zpos my)
                  = (Zpos mx * 2 ^ (ex + 1074) ?= Zpos my * 2 ^ (ey + 1074))).
    { intros <-. destruct (valid_finite _ _ _ Hx) as (He & _).
      assert (0 < 2 ^ (ex + 1074)) by (apply pow2_pos; lia).
      symmetry. destruct (Z.compare_spec (Zpos mx) (Zpos my)) as [E|L|G].
      - apply Z.compare_eq_iff. rewrite E. reflexivity.
      - apply Z.compare_lt_iff. apply Z.mul_lt_mono_pos_r; assumption.
      - apply Z.compare_gt_iff. apply Z.mul_lt_mono_pos_r; assumption. }
    set (vx := Zpos mx * 2 ^ (ex + 1074)) in *.
    set (vy := Zpos my * 2 ^ (ey + 1074)) in *.
    clearbody vx vy.
    destruct sx, sy; f_equal.
    + destruct (Z.compare_spec ex ey) as [E|L|G].
      * rewrite (Heq E). rewrite Z.compare_opp. symmetry. apply Z.compare_antisym.
      * symmetry. apply Z.compare_gt_iff. specialize (Hlt L). lia.
      * symmetry. apply Z.compare_lt_iff. specialize (Hgt G). lia.
    + symmetry. apply Z.compare_lt_iff. lia.
    + symmetry. apply Z.compare_gt_iff. lia.
    + destruct (Z.compare_spec ex ey) as [E|L|G].
      * apply (Heq E).
      * symmetry. apply Z.compare_lt_iff. exact (Hlt L).
      * symmetry. apply Z.compare_gt_iff. exact (Hgt G).
Qed.

Lemma SFleb_ord (x y : spec_float) :
  valid_binary x = true -> valid_binary y = true ->
  num_sf x = true -> num_sf y = true ->
  SFleb x y = (ord x <=? ord y).
Proof.
  intros. unfold SFleb. rewrite SFcompare_ord by assumption.
  unfold Z.leb. destruct (ord x ?= ord y); reflexivity.
Qed.

Lemma SFltb_ord (x y : spec_float) :
  valid_binary x = true -> valid_binary y = true ->
  num_sf x = true -> num_sf y = true ->
  SFltb x y = (ord x <? ord y).
Proof.
  intros. unfold SFltb. rewrite SFcompare_ord by assumption.
  unfold Z.ltb. destruct (ord x ?= ord y); reflexivity.
Qed.

Lemma leb_fval (x y : float) :
  is_num x = true -> is_num y = true ->
  (x <=? y)%float = (fval x <=? fval y).
Proof.
  intros Hx Hy. rewrite FloatAxioms.leb_spec. apply SFleb_ord; try assumption;
    apply Prim2SF_valid.
Qed.

Lemma ltb_fval (x y : float) :
  is_num x = true -> is_num y = true ->
  (x <? y)%float = (fval x <? fval y).
Proof.
  intros Hx Hy. rewrite FloatAxioms.ltb_spec. apply SFltb_ord; try assumption;
    apply Prim2SF_valid.
Qed.

Lemma leb_is_num (x y : float) :
  (x <=? y)%float = true -> is_num x = true /\ is_num y = true.
Proof.
  rewrite FloatAxioms.leb_spec. unfold is_num.
  destruct (Prim2SF x), (Prim2SF y); intros H;
    try (split; reflexivity); discriminate H.
Qed.

Lemma pos_sf_num (x : spec_float) : pos_sf x = true -> num_sf x = true.
Proof. destruct x; try reflexivity. discriminate. Qed.

Lemma fin_sf_num (x : spec_float) : fin_sf x = true -> num_sf x = true.
Proof. destruct x; try reflexivity. discriminate. Qed.


(** *** Subtraction *)

Lemma iter_xO (m d : positive) : Zpos (Pos.iter xO m d) = Zpos m * 2 ^ Zpos d.
Proof.
  induction d as [|d IH] using Pos.peano_ind.
  - cbn [Pos.iter]. change (Zpos m~0) with (2 * Zpos m). change (2 ^ 1) with 2. lia.
  - rewrite Pos.iter_succ.
    change (Zpos (Pos.iter xO m d)~0) with (2 * Zpos (Pos.iter xO m d)).
    rewrite IH, Pos2Z.inj_succ, Z.pow_succ_r by lia. lia.
Qed.

Lemma shl_align_spec (mx : positive) (ex ex' : Z) :
  snd (shl_align mx ex ex') = Z.min ex ex'
  /\ Zpos (fst (shl_align mx ex ex')) = Zpos mx * 2 ^ (ex - Z.min ex ex').
Proof.
  unfold shl_align. destruct (ex' - ex) as [|d|d] eqn:Hd; cbn [fst snd].
  - replace (Z.min ex ex') with ex by lia. rewrite Z.sub_diag. split; lia.
  - replace (Z.min ex ex') with ex by lia. rewrite Z.sub_diag. split; lia.
  - replace (Z.min ex ex') with ex' by lia. split; [reflexivity|].
    rewrite iter_xO. f_equal. f_equal. lia.
Qed.

Lemma Zdigits2_shift (m k : Z) :
  0 < m -> 0 <= k -> Zdigits2 (m * 2 ^ k) = Zdigits2 m + k.
Proof.
  intros Hm Hk. destruct (Zdigits2_bounds m Hm) as (Hd & Hlo & Hhi).
  assert (0 < 2 ^ k) by (apply pow2_pos; lia).
  apply Zdigits2_unique; [apply Z.mul_pos_pos; lia|].
  replace (Zdigits2 m + k - 1) with (Zdigits2 m - 1 + k) by lia.
  rewrite !Z.pow_add_r by lia. split.
  - apply Z.mul_le_mono_nonneg_r; lia.
  - apply Z.mul_lt_mono_pos_r; lia.
Qed.

Lemma rv_nonneg (P Q : Z) : 0 <= P -> 0 < Q -> 0 <= rv P Q.
Proof.
  intros HP HQ. unfold rv. cbv zeta.
  destruct (sh_spec P Q HP HQ) as (Hs & _).
  assert (0 < 2 ^ sh P Q) by (apply pow2_pos; lia).
  pose proof (rne_bounds (P / (Q * 2 ^ sh P Q)) (loc_of P (Q * 2 ^ sh P Q))) as Hb.
  assert (0 <= P / (Q * 2 ^ sh P Q)) by (apply Z.div_pos; [lia|pos2]).
  apply Z.mul_nonneg_nonneg; lia.
Qed.

Lemma binary_normalize_ord (N ez : Z) :
  0 <= N -> -1074 <= ez ->
  pos_sf (binary_normalize prec emax N ez false) = true
  /\ ord (binary_normalize prec emax N ez false)
     = Z.min (rv (N * 2 ^ (ez + 1074)) 1) TOP.
Proof.
  intros HN Hez. pose proof TOP_pos as HT.
  destruct N as [|pn|pn]; [| |lia].
  - cbn [binary_normalize pos_sf ord]. rewrite Z.mul_0_l, rv_0 by lia.
    split; [reflexivity|lia].
  - cbn [binary_normalize]. unfold binary_round.
    pose proof (shl_align_spec pn ez (fexp prec emax (Zpos (digits2_pos pn) + ez)))
      as [Hsnd Hfst].
    destruct (shl_align pn ez (fexp prec emax (Zpos (digits2_pos pn) + ez)))
      as [mz ez'].
    cbn [fst snd] in Hsnd, Hfst. rewrite fexp_eq in Hsnd, Hfst.
    set (D := Zpos (digits2_pos pn) + ez) in *.
    assert (Hk : 0 <= ez - ez') by lia.
    replace (Z.min ez (Z.max (D - 53) (-1074))) with ez' in Hfst by lia.
    replace (Zpos mz) with (Zpos mz / 1) at 1 2 by apply Z.div_1_r.
    replace loc_Exact with (loc_of (Zpos mz) 1)
      by (unfold loc_of; rewrite Z.mod_1_r; reflexivity).
    apply binary_round_aux_ord; [lia|lia| |lia| | ].
    + assert (0 < 2 ^ (ez + 1074)) by (apply pow2_pos; lia).
      apply Z.mul_nonneg_nonneg; lia.
    + rewrite Z.div_1_r, fexp_eq, Hfst.
      rewrite Zdigits2_shift by lia.
      change (Zdigits2 (Zpos pn)) with (Zpos (digits2_pos pn)).
      replace (Zpos (digits2_pos pn) + (ez - ez') + ez') with D by lia.
      lia.
    + replace (Z.max 0 (- (ez' + 1074))) with 0 by lia.
      replace (Z.max 0 (ez' + 1074)) with (ez' + 1074) by lia.
      change (2 ^ 0) with 1. rewrite Hfst.
      replace (ez + 1074) with ((ez - ez') + (ez' + 1074)) by lia.
      rewrite Z.pow_add_r by lia. lia.
Qed.

Lemma ord_finite (s : bool) (m : positive) (e : Z) :
  ord (S754_finite s m e) = cond_Zopp s (Zpos m * 2 ^ (e + 1074)).
Proof. destruct s; reflexivity. Qed.

Lemma rv_valid_finite (s : bool) (m : positive) (e : Z) :
  valid_binary (S754_finite s m e) = true ->
  Z.min (rv (Zpos m * 2 ^ (e + 1074)) 1) TOP = Zpos m * 2 ^ (e + 1074).
Proof.
  intros Hv. destruct (valid_finite s m e Hv) as (He & Hm & Hn).
  pose proof (valid_finite_ord s m e Hv) as Ho.
  rewrite rv_exact; [lia|lia|lia|].
  intros Hk. apply Hn. lia.
Qed.

Lemma SFsub_ord (a m : spec_float) :
  valid_binary a = true -> valid_binary m = true ->
  fin_sf a = true -> fin_sf m = true -> ord m <= ord a ->
  pos_sf (SFsub prec emax a m) = true
  /\ ord (SFsub prec emax a m) = Z.min (rv (ord a - ord m) 1) TOP.
Proof.
  pose proof TOP_pos as HT.
  intros Ha Hm Hfa Hfm Hle.
  destruct a as [sa|sa| |sa ma ea]; try discriminate Hfa;
    destruct m as [sm|sm| |sm mm em]; try discriminate Hfm.
  - cbn [ord]. change (0 - 0) with 0. rewrite rv_0 by lia.
    destruct sa, sm; cbn; split; try reflexivity; lia.
  - pose proof (valid_finite_ord _ _ _ Hm) as Hv.
    cbn [SFsub]. cbn [ord] in Hle |- *.
    destruct sm; [|lia]. cbn [negb pos_sf].
    split; [reflexivity|].
    replace (0 - - (Zpos mm * 2 ^ (em + 1074))) with (Zpos mm * 2 ^ (em + 1074)) by lia.
    symmetry. apply (rv_valid_finite true). exact Hm.
  - pose proof (valid_finite_ord _ _ _ Ha) as Hv.
    cbn [SFsub]. cbn [ord] in Hle |- *.
    destruct sa; [lia|]. cbn [negb pos_sf].
    split; [reflexivity|].
    rewrite Z.sub_0_r. symmetry. apply (rv_valid_finite false). exact Ha.
  - cbn [SFsub]. cbv zeta.
    destruct (valid_finite _ _ _ Ha) as (Hea & _).
    destruct (valid_finite _ _ _ Hm) as (Hem & _).
    pose proof (shl_align_spec ma ea (Z.min ea em)) as [_ Hfa'].
    pose proof (shl_align_spec mm em (Z.min ea em)) as [_ Hfm'].
    replace (Z.min ea (Z.min ea em)) with (Z.min ea em) in Hfa' by lia.
    replace (Z.min em (Z.min ea em)) with (Z.min ea em) in Hfm' by lia.
    rewrite Hfa', Hfm'.
    set (ez := Z.min ea em) in *.
    assert (Hp : 0 < 2 ^ (ez + 1074)) by (apply pow2_pos; lia).
    assert (HX : (cond_Zopp sa (Zpos ma * 2 ^ (ea - ez))
                  - cond_Zopp sm (Zpos mm * 2 ^ (em - ez))) * 2 ^ (ez + 1074)
                 = ord (S754_finite sa ma ea) - ord (S754_finite sm mm em)).
    { rewrite !ord_finite.
      replace (ea + 1074) with ((ea - ez) + (ez + 1074)) by lia.
      replace (em + 1074) with ((em - ez) + (ez + 1074)) by lia.
      rewrite (Z.pow_add_r 2 (ea - ez) (ez + 1074)),
        (Z.pow_add_r 2 (em - ez) (ez + 1074)) by lia.
      destruct sa, sm; cbn [cond_Zopp]; ring. }
    assert (Hge : 0 <= ord (S754_finite sa ma ea) - ord (S754_finite sm mm em))
      by lia.
    rewrite <- HX in Hge |- *. apply binary_normalize_ord; [|lia].
    destruct (Z.le_gt_cases 0 (cond_Zopp sa (Zpos ma * 2 ^ (ea - ez))
                               - cond_Zopp sm (Zpos mm * 2 ^ (em - ez))))
      as [|Hneg]; [assumption|exfalso].
    assert ((cond_Zopp sa (Zpos ma * 2 ^ (ea - ez))
             - cond_Zopp sm (Zpos mm * 2 ^ (em - ez))) * 2 ^ (ez + 1074) < 0)
      by (apply Z.mul_neg_pos; lia).
    lia.
Qed.

(** *** Division by 3.6 *)

Lemma new_location_spec (nb k : Z) :
  0 < nb -> 0 <= k < nb ->
  new_location nb k = if k =? 0 then loc_Exact else loc_Inexact (2 * k ?= nb).
Proof.
  intros Hnb Hk. unfold new_location.
  destruct (Z.even nb) eqn:Hev.
  - reflexivity.
  - unfold new_location_odd. destruct (k =? 0); [reflexivity|]. f_equal.
    assert (Hodd : Z.odd nb = true) by (rewrite <- Z.negb_even, Hev; reflexivity).
    apply Z.odd_spec in Hodd. destruct Hodd as [j Hj].
    destruct (Z.compare_spec (2 * k + 1) nb); destruct (Z.compare_spec (2 * k) nb);
      try reflexivity; lia.
Qed.

Lemma SFdiv_core_binary_spec (m1 e1 m2 e2 : Z) :
  0 < m1 -> 0 < m2 ->
  let e' := Z.min (fexp prec emax (Zdigits2 m1 + e1 - (Zdigits2 m2 + e2))) (e1 - e2) in
  let m' := m1 * 2 ^ (e1 - e2 - e') in
  SFdiv_core_binary prec emax m1 e1 m2 e2 = (m' / m2, e', loc_of m' m2).
Proof.
  intros Hm1 Hm2 e' m'. unfold SFdiv_core_binary. fold e'.
  assert (Hs : 0 <= e1 - e2 - e') by (unfold e'; lia).
  assert (Hm' : match e1 - e2 - e' with
                | Zpos _ => Z.shiftl m1 (e1 - e2 - e')
                | Z0 => m1
                | Zneg _ => Z0
                end = m').
  { unfold m'. destruct (e1 - e2 - e') as [|s|s] eqn:Hse; [| |lia].
    - change (2 ^ 0) with 1. lia.
    - apply Z.shiftl_mul_pow2. lia. }
  rewrite Hm'.
  assert (Hmpos : 0 <= m').
  { unfold m'. apply Z.mul_nonneg_nonneg; [lia|]. apply Z.pow_nonneg. lia. }
  pose proof (Z.mod_pos_bound m' m2 Hm2) as Hr.
  unfold loc_of. rewrite <- new_location_spec by assumption.
  unfold Z.div, Z.modulo. destruct (Z.div_eucl m' m2) as [q r]. reflexivity.
Qed.

Lemma SFdiv_3_6_ord (x : spec_float) :
  valid_binary x = true -> pos_sf x = true ->
  pos_sf (SFdiv prec emax x SF_3_6) = true
  /\ ord (SFdiv prec emax x SF_3_6) = div_3_6 (ord x).
Proof.
  pose proof TOP_pos as HT.
  intros Hv Hpos. unfold SF_3_6, div_3_6.
  destruct x as [sx|sx| |sx mx ex]; try discriminate Hpos.
  - cbn [SFdiv pos_sf ord]. split; [reflexivity|].
    destruct (Z.ltb_spec 0 TOP); [|lia].
    rewrite Z.mul_0_l, rv_0 by lia. lia.
  - destruct sx; [discriminate Hpos|]. cbn [SFdiv xorb pos_sf ord negb].
    split; [reflexivity|]. rewrite Z.ltb_irrefl. reflexivity.
  - destruct sx; [discriminate Hpos|].
    destruct (valid_finite _ _ _ Hv) as (He & Hmx & _).
    pose proof (valid_finite_ord _ _ _ Hv) as Ho.
    cbn [ord]. destruct (Z.ltb_spec (Zpos mx * 2 ^ (ex + 1074)) TOP); [|lia].
    cbn [SFdiv xorb].
    rewrite SFdiv_core_binary_spec by lia. cbv zeta.
    change (Zdigits2 (Zpos 8106479329266893)) with 53.
    rewrite fexp_eq.
    set (d1 := Zdigits2 (Zpos mx)).
    destruct (Zdigits2_bounds (Zpos mx) ltac:(lia)) as (Hd1 & Hlo1 & Hhi1).
    fold d1 in Hd1, Hlo1, Hhi1. clearbody d1.
    set (D := d1 + ex - (53 + -51)) in *.
    set (e' := Z.min (Z.max (D - 53) (-1074)) (ex - -51)) in *.
    set (s := ex - -51 - e') in *.
    assert (Hs : 0 <= s) by lia.
    assert (Hps : 0 < 2 ^ s) by (apply pow2_pos; lia).
    assert (Hp : 0 < Zpos mx * 2 ^ s) by (apply Z.mul_pos_pos; lia).
    apply binary_round_aux_ord; [lia|lia| |lia| | ].
    + apply Z.mul_nonneg_nonneg; [lia|]. apply Z.pow_nonneg. lia.
    + rewrite fexp_eq.
      destruct (Z.le_gt_cases e' (-1074)) as [Hsmall|Hbig]; [lia|].
      assert (He' : e' <= D - 53) by lia.
      assert (Hq : 2 ^ (D - e' - 1) <= Zpos mx * 2 ^ s / 8106479329266893).
      { apply Z.div_le_lower_bound; [lia|].
        assert (0 < 2 ^ (D - e' - 1)) by (apply pow2_pos; lia).
        assert (8106479329266893 * 2 ^ (D - e' - 1) <= 2 ^ 53 * 2 ^ (D - e' - 1))
          by (apply Z.mul_le_mono_nonneg_r; lia).
        assert (2 ^ (d1 - 1) * 2 ^ s <= Zpos mx * 2 ^ s)
          by (apply Z.mul_le_mono_nonneg_r; lia).
        assert (2 ^ 53 * 2 ^ (D - e' - 1) = 2 ^ (d1 - 1) * 2 ^ s).
        { rewrite <- !Z.pow_add_r by lia. f_equal. lia. }
        lia. }
      assert (0 < 2 ^ (D - e' - 1)) by (apply pow2_pos; lia).
      destruct (Zdigits2_bounds (Zpos mx * 2 ^ s / 8106479329266893) ltac:(lia))
        as (Hdq & _ & Hhiq).
      assert (D - e' - 1 < Zdigits2 (Zpos mx * 2 ^ s / 8106479329266893))
        by (apply pow2_lt_inv; lia).
      lia.
    + assert (Hpow : 2 ^ (ex + 1074) * 2 ^ 51 * 2 ^ Z.max 0 (- (e' + 1074))
                     = 2 ^ s * 2 ^ Z.max 0 (e' + 1074)).
      { rewrite <- !Z.pow_add_r by lia. f_equal. lia. }
      transitivity (Zpos mx * 8106479329266893
                    * (2 ^ (ex + 1074) * 2 ^ 51 * 2 ^ Z.max 0 (- (e' + 1074))));
        [ring|].
      rewrite Hpow. ring.
Qed.

End Rounding.

(** ** Seeding *)


Section Seeding.

Lemma estimate_is_seed_of_volts (chip : ina219_config) (io : bus) :
  estimate_battery_percentage BATTERY_MIN_VOLTAGE chip io
  = seed_of_volts (get_bus_voltage chip io).
Proof. reflexivity. Qed.

(** C7: when the calibration write fails, [get_bus_voltage] answers the
    sentinel -255.0, and seeding clamps what it computes from it to 0: the
    daemon starts from 0 mAh as from a valid reading, and nothing reports
    the failure. *)
Theorem seed_swallows_failed_read (chip : ina219_config) (io : bus)
    (now : timespec) :
  i2c_write_word io REG_CALIBRATION (cal_value chip) = -1 ->
  get_bus_voltage chip io = READ_FAILED
  /\ estimate_battery_percentage BATTERY_MIN_VOLTAGE chip io = 0%float
  /\ last_capacity (seed_battery chip io now) = 0%float.
Proof.
  intros Hw.
  assert (HV : get_bus_voltage chip io = READ_FAILED).
  { unfold get_bus_voltage. rewrite Hw. reflexivity. }
  assert (Hp : estimate_battery_percentage BATTERY_MIN_VOLTAGE chip io = 0%float).
  { rewrite estimate_is_seed_of_volts, HV. reflexivity. }
  split; [exact HV|]. split; [exact Hp|].
  unfold seed_battery. cbn [last_capacity]. rewrite Hp. reflexivity.
Qed.

Lemma seed_swallows_failed_read_witness :
  get_bus_voltage chip_16V_5A bus_failing = READ_FAILED
  /\ estimate_battery_percentage BATTERY_MIN_VOLTAGE chip_16V_5A bus_failing = 0%float
  /\ last_capacity (seed_battery chip_16V_5A bus_failing epoch) = 0%float.
Proof. exact (seed_swallows_failed_read chip_16V_5A bus_failing epoch eq_refl). Defined.

(** A failed read after a successful write is not even marked: the -1 of
    [i2c_read_word] is decoded like a register word, and seeding gives 0
    again. *)
Lemma seed_swallows_unreadable_bus :
  get_bus_voltage chip_16V_5A bus_unreadable = (-0.004)%float
  /\ estimate_battery_percentage BATTERY_MIN_VOLTAGE chip_16V_5A bus_unreadable
     = 0%float.
Proof. split; reflexivity. Qed.

(** What [get_bus_voltage] can return: the sentinel, or the voltage of a
    shifted word between -1 and 8191. *)
Lemma get_bus_voltage_cases (chip : ina219_config) (io : bus) :
  get_bus_voltage chip io = READ_FAILED
  \/ exists k, -1 <= k <= 8191 /\ get_bus_voltage chip io = volts_of_word k.
Proof.
  unfold get_bus_voltage.
  destruct (i2c_write_word io REG_CALIBRATION (cal_value chip) <? 0);
    [left; reflexivity|right].
  exists (Z.shiftr (i2c_read_word io REG_BUSVOLTAGE) 3). split; [|reflexivity].
  unfold i2c_read_word.
  destruct (ioctl_ret (smbus_read io REG_BUSVOLTAGE) <? 0);
    [change (Z.shiftr (-1) 3) with (-1); lia|].
  pose proof (swap_bytes_range (data_word (smbus_read io REG_BUSVOLTAGE))) as Hr.
  rewrite Z.shiftr_div_pow2 by lia. change (2 ^ 3) with 8.
  split.
  - transitivity 0; [lia|]. apply Z.div_pos; lia.
  - apply Z.lt_succ_r. apply Z.div_lt_upper_bound; lia.
Qed.

Lemma forall_range_spec (d : nat) :
  forall (lo : Z) (P : Z -> bool),
    forall_range d lo P = true ->
    forall k, lo <= k < lo + 2 ^ Z.of_nat d -> P k = true.
Proof.
  induction d as [|d IH]; intros lo P H k Hk.
  - cbn in H, Hk. replace k with lo by lia. exact H.
  - cbn [forall_range] in H. apply andb_true_iff in H. destruct H as [H1 H2].
    rewrite Nat2Z.inj_succ, Z.pow_succ_r in Hk by lia.
    assert (0 < 2 ^ Z.of_nat d) by (apply Z.pow_pos_nonneg; lia).
    destruct (Z.lt_ge_cases k (lo + 2 ^ Z.of_nat d)).
    + apply (IH lo P H1). lia.
    + apply (IH _ P H2). lia.
Qed.

(** Every voltage [get_bus_voltage] can return is a finite double. *)
Lemma check_finite_ok :
  forall_range 13 (-1) word_finite = true /\ word_finite 8191 = true.
Proof. split; vm_compute; reflexivity. Qed.

Lemma bus_voltage_finite (chip : ina219_config) (io : bus) :
  is_fin (get_bus_voltage chip io) = true.
Proof.
  destruct (get_bus_voltage_cases chip io) as [-> | (k & Hk & ->)];
    [reflexivity|].
  destruct check_finite_ok as [Hlow Hlast].
  destruct (Z.eq_dec k 8191) as [->|Hne]; [exact Hlast|].
  apply (forall_range_spec 13 (-1) word_finite Hlow).
  change (2 ^ Z.of_nat 13) with 8192. lia.
Qed.

Lemma Prim2SF_3_6 : Prim2SF 3.6 = SF_3_6.
Proof. reflexivity. Qed.

(** A minimum voltage with a finite voltage between it and itself plus 3.6
    is finite. *)
Lemma min_voltage_finite (min_voltage V : float) :
  is_fin V = true ->
  (min_voltage <=? V)%float = true ->
  (V <=? min_voltage + 3.6)%float = true ->
  is_fin min_voltage = true.
Proof.
  unfold is_fin. rewrite !FloatAxioms.leb_spec, FloatAxioms.add_spec, Prim2SF_3_6.
  destruct (Prim2SF min_voltage) as [s|[|]| |s m e]; try reflexivity;
    destruct (Prim2SF V) as [sV|sV| |sV mV eV]; intros HV H1 H2;
    try discriminate HV; try discriminate H1; discriminate H2.
Qed.

Lemma fval_1_pos : 0 < fval 1.
Proof. vm_compute. reflexivity. Qed.

(** The value of [(V - min_voltage) / 3.6] in terms of the exact
    difference. *)
Lemma ratio_fval (min_voltage V : float) :
  is_fin V = true -> is_fin min_voltage = true ->
  fval min_voltage <= fval V ->
  is_num ((V - min_voltage) / 3.6) = true
  /\ fval ((V - min_voltage) / 3.6)
     = div_3_6 (Z.min (rv (fval V - fval min_voltage) 1) TOP).
Proof.
  intros HV Hm Hle. unfold fval, is_num.
  rewrite FloatAxioms.div_spec, Prim2SF_3_6.
  pose proof (Prim2SF_valid (V - min_voltage)) as Hv.
  rewrite FloatAxioms.sub_spec in Hv |- *.
  unfold SF64div, SF64sub in *.
  destruct (SFsub_ord (Prim2SF V) (Prim2SF min_voltage)
              (Prim2SF_valid V) (Prim2SF_valid min_voltage) HV Hm Hle)
    as [Hp Ho].
  destruct (SFdiv_3_6_ord _ Hv Hp) as [Hp' Ho'].
  split; [apply pos_sf_num; exact Hp'|].
  rewrite Ho', Ho. reflexivity.
Qed.

Lemma div_3_6_bounds (W : Z) : 0 <= W -> 0 <= div_3_6 W <= TOP.
Proof.
  intros HW. pose proof TOP_pos. unfold div_3_6.
  destruct (W <? TOP); [|lia].
  assert (0 <= rv (W * 2 ^ 51) 8106479329266893).
  { apply rv_nonneg; [|lia]. apply Z.mul_nonneg_nonneg; lia. }
  lia.
Qed.

Lemma div_3_6_mono (W1 W2 : Z) :
  0 <= W1 <= W2 -> div_3_6 W1 <= div_3_6 W2.
Proof.
  intros HW. pose proof (div_3_6_bounds W1 ltac:(lia)) as Hb.
  unfold div_3_6 in *.
  destruct (Z.ltb_spec W2 TOP) as [H2|H2]; [|lia].
  destruct (Z.ltb_spec W1 TOP) as [H1|H1]; [|lia].
  assert (rv (W1 * 2 ^ 51) 8106479329266893 <= rv (W2 * 2 ^ 51) 8106479329266893).
  { apply rv_mono; [|lia| |lia|].
    - apply Z.mul_nonneg_nonneg; lia.
    - apply Z.mul_nonneg_nonneg; lia.
    - apply Z.mul_le_mono_nonneg_r; [lia|].
      apply Z.mul_le_mono_nonneg_r; lia. }
  lia.
Qed.

Lemma ratio_mono (X1 X2 : Z) :
  0 <= X1 <= X2 ->
  0 <= div_3_6 (Z.min (rv X1 1) TOP)
  /\ div_3_6 (Z.min (rv X1 1) TOP) <= div_3_6 (Z.min (rv X2 1) TOP).
Proof.
  intros HX. pose proof TOP_pos.
  assert (0 <= rv X1 1) by (apply rv_nonneg; lia).
  assert (rv X1 1 <= rv X2 1) by (apply rv_mono; lia).
  split; [apply div_3_6_bounds; lia|apply div_3_6_mono; lia].
Qed.

(** The clamp of [estimate_battery_percentage] on a ratio that is a number
    and not negative: only the upper bound can take effect. *)
Lemma clamp_fval (batt : float) :
  is_num batt = true -> 0 <= fval batt ->
  let p := if (1 <? batt)%float then 1.0%float
           else if (batt <? 0)%float then 0.0%float else batt in
  is_num p = true
  /\ fval p = Z.min (fval batt) (fval 1)
  /\ p = if (1 <? batt)%float then 1%float else batt.
Proof.
  intros Hn H0. cbv zeta.
  rewrite (ltb_fval 1 batt eq_refl Hn), (ltb_fval batt 0 Hn eq_refl).
  change (fval 0) with 0.
  destruct (Z.ltb_spec (fval 1) (fval batt)) as [H1|H1].
  - split; [reflexivity|]. split; [lia|reflexivity].
  - destruct (Z.ltb_spec (fval batt) 0) as [Hneg|_]; [lia|].
    split; [exact Hn|]. split; [lia|reflexivity].
Qed.

(** What [estimate_battery_percentage] computes from a bus voltage that is
    not below the minimum. *)
Lemma estimate_fval (min_voltage : float) (chip : ina219_config) (io : bus) :
  let V := get_bus_voltage chip io in
  let p := estimate_battery_percentage min_voltage chip io in
  (min_voltage <=? V)%float = true ->
  (V <=? min_voltage + 3.6)%float = true ->
  is_num p = true
  /\ fval min_voltage <= fval V
  /\ fval p = Z.min (div_3_6 (Z.min (rv (fval V - fval min_voltage) 1) TOP))
                (fval 1)
  /\ p = if (1 <? (V - min_voltage) / 3.6)%float then 1%float
         else ((V - min_voltage) / 3.6)%float.
Proof.
  intros V p Hlo Hhi.
  pose proof (bus_voltage_finite chip io) as HV. fold V in HV.
  pose proof (min_voltage_finite min_voltage V HV Hlo Hhi) as Hm.
  assert (Hle : fval min_voltage <= fval V).
  { rewrite leb_fval in Hlo by (apply fin_sf_num; assumption).
    apply Z.leb_le. exact Hlo. }
  destruct (ratio_fval min_voltage V HV Hm Hle) as [Hn Hv].
  destruct (ratio_mono (fval V - fval min_voltage) (fval V - fval min_voltage)
              ltac:(lia)) as [H0 _].
  rewrite <- Hv in H0.
  destruct (clamp_fval _ Hn H0) as (Hpn & Hpv & Hpe).
  subst p. unfold estimate_battery_percentage. cbv zeta. fold V.
  split; [exact Hpn|]. split; [exact Hle|].
  split; [rewrite Hpv, Hv; reflexivity|exact Hpe].
Qed.

(** C8: for every minimum voltage and every bus voltage the gauge can report
    that lies between [min_voltage] and [min_voltage + 3.6], the seeded
    percentage lies in [0,1]; it is the ratio [(V - min_voltage) / 3.6]
    itself, capped at 1; and of two such voltages [V1 <= V2] the first seeds
    no more than the second. *)
Theorem seed_percentage_monotone (min_voltage : float) (chip : ina219_config)
    (io1 io2 : bus) :
  let V1 := get_bus_voltage chip io1 in
  let V2 := get_bus_voltage chip io2 in
  let p1 := estimate_battery_percentage min_voltage chip io1 in
  let p2 := estimate_battery_percentage min_voltage chip io2 in
  (min_voltage <=? V1)%float = true ->
  (V1 <=? min_voltage + 3.6)%float = true ->
  (min_voltage <=? V2)%float = true ->
  (V2 <=? min_voltage + 3.6)%float = true ->
  ((0 <=? p1)%float = true /\ (p1 <=? 1)%float = true)
  /\ ((0 <=? p2)%float = true /\ (p2 <=? 1)%float = true)
  /\ p1 = (if (1 <? (V1 - min_voltage) / 3.6)%float then 1%float
           else ((V1 - min_voltage) / 3.6)%float)
  /\ p2 = (if (1 <? (V2 - min_voltage) / 3.6)%float then 1%float
           else ((V2 - min_voltage) / 3.6)%float)
  /\ ((V1 <=? V2)%float = true -> (p1 <=? p2)%float = true).
Proof.
  intros V1 V2 p1 p2 Hlo1 Hhi1 Hlo2 Hhi2.
  destruct (estimate_fval min_voltage chip io1 Hlo1 Hhi1) as (Hn1 & Hle1 & Hv1 & He1).
  destruct (estimate_fval min_voltage chip io2 Hlo2 Hhi2) as (Hn2 & Hle2 & Hv2 & He2).
  fold V1 p1 in Hn1, Hle1, Hv1, He1. fold V2 p2 in Hn2, Hle2, Hv2, He2.
  pose proof fval_1_pos as H1.
  destruct (ratio_mono (fval V1 - fval min_voltage) (fval V1 - fval min_voltage)
              ltac:(lia)) as [H01 _].
  destruct (ratio_mono (fval V2 - fval min_voltage) (fval V2 - fval min_voltage)
              ltac:(lia)) as [H02 _].
  assert (Hr1 : (0 <=? p1)%float = true /\ (p1 <=? 1)%float = true).
  { rewrite (leb_fval 0 p1 eq_refl Hn1), (leb_fval p1 1 Hn1 eq_refl).
    change (fval 0) with 0. split; apply Z.leb_le; lia. }
  assert (Hr2 : (0 <=? p2)%float = true /\ (p2 <=? 1)%float = true).
  { rewrite (leb_fval 0 p2 eq_refl Hn2), (leb_fval p2 1 Hn2 eq_refl).
    change (fval 0) with 0. split; apply Z.leb_le; lia. }
  split; [exact Hr1|]. split; [exact Hr2|].
  split; [exact He1|]. split; [exact He2|].
  intros HV.
  apply leb_is_num in HV as HnV. destruct HnV as [HnV1 HnV2].
  rewrite leb_fval in HV by assumption. apply Z.leb_le in HV.
  destruct (ratio_mono (fval V1 - fval min_voltage) (fval V2 - fval min_voltage)
              ltac:(lia)) as [_ Hmono].
  rewrite (leb_fval p1 p2 Hn1 Hn2). apply Z.leb_le. lia.
Qed.

Lemma seed_percentage_monotone_witness :
  let p1 := estimate_battery_percentage 6.0 chip_16V_5A (bus_reading 14000) in
  let p2 := estimate_battery_percentage 6.0 chip_16V_5A (bus_reading 18000) in
  get_bus_voltage chip_16V_5A (bus_reading 14000) = 7%float
  /\ get_bus_voltage chip_16V_5A (bus_reading 18000) = 9%float
  /\ ((0 <=? p1)%float = true /\ (p1 <=? 1)%float = true)
  /\ ((0 <=? p2)%float = true /\ (p2 <=? 1)%float = true)
  /\ p1 = ((7 - 6.0) / 3.6)%float
  /\ p2 = ((9 - 6.0) / 3.6)%float
  /\ (p1 <=? p2)%float = true.
Proof.
  pose proof (seed_percentage_monotone 6.0 chip_16V_5A (bus_reading 14000)
                (bus_reading 18000)
                ltac:(vm_compute; reflexivity) ltac:(vm_compute; reflexivity)
                ltac:(vm_compute; reflexivity) ltac:(vm_compute; reflexivity))
    as (H1 & H2 & H3 & H4 & H5).
  split; [reflexivity|]. split; [reflexivity|].
  split; [exact H1|]. split; [exact H2|].
  split; [exact H3|]. split; [exact H4|].
  apply H5. vm_compute. reflexivity.
Defined.

End Seeding.

(** * Further properties *)

(** ** The transport and the gauge's configuration *)

Section Transport.

Lemma lor_disjoint_add (a b : Z) :
  0 <= b < 256 -> Z.lor (a * 256) b = a * 256 + b.
Proof.
  intros Hb. pose proof (Z.add_lor_land (a * 256) b) as Hadd.
  assert (Hz : Z.land (a * 256) b = 0).
  { apply Z.bits_inj'. intros n Hn. rewrite Z.land_spec, Z.bits_0.
    destruct (Z.lt_ge_cases n 8) as [Hlt|Hge].
    - change 256 with (2 ^ 8). rewrite Z.mul_pow2_bits_low by lia. reflexivity.
    - rewrite (Z.bits_above_log2 b n); [apply andb_false_r|lia|].
      destruct (Z.eq_dec b 0) as [->|]; [simpl; lia|].
      assert (Z.log2 b < 8) by (apply Z.log2_lt_pow2; simpl; lia). lia. }
  rewrite Hz in Hadd. lia.
Qed.

(** The byte swap in arithmetic: low byte up, second byte down, the rest
    dropped. *)
Lemma swap_bytes_arith (w : Z) :
  swap_bytes w = (w mod 256) * 256 + (w / 256) mod 256.
Proof.
  unfold swap_bytes.
  change 0xFF with (Z.ones 8). rewrite Z.land_ones by lia.
  rewrite Z.shiftr_land. change (Z.shiftr 0xFF00 8) with (Z.ones 8).
  rewrite Z.land_ones, Z.shiftr_div_pow2, Z.shiftl_mul_pow2 by lia.
  change (2 ^ 8) with 256.
  apply lor_disjoint_add. apply Z.mod_pos_bound. lia.
Qed.

(** X1: on 16-bit words the byte swap undoes itself, so a register that
    answers the [data.word] of an earlier [i2c_write_word] reads back as the
    value written. *)
Theorem word_round_trip (io : bus) (reg value : Z) :
  0 <= value < 65536 ->
  swap_bytes (swap_bytes value) = value
  /\ (0 <= ioctl_ret (smbus_read io reg) ->
      data_word (smbus_read io reg) = swap_bytes value ->
      i2c_read_word io reg = value).
Proof.
  intros Hv.
  assert (Hinv : swap_bytes (swap_bytes value) = value).
  { rewrite (swap_bytes_arith (swap_bytes value)), (swap_bytes_arith value).
    pose proof (Z.mod_pos_bound value 256 ltac:(lia)) as Hlo.
    pose proof (Z.mod_pos_bound (value / 256) 256 ltac:(lia)) as Hhi.
    pose proof (Z.div_mod value 256 ltac:(lia)) as Hdm.
    assert (Hq : 0 <= value / 256 < 256).
    { split; [apply Z.div_pos; lia|apply Z.div_lt_upper_bound; lia]. }
    rewrite (Z.mod_small (value / 256) 256) by lia.
    set (a := value mod 256) in *. set (b := value / 256) in *.
    replace ((a * 256 + b) mod 256) with b.
    - replace ((a * 256 + b) / 256) with a.
      + rewrite (Z.mod_small a 256) by lia. lia.
      + apply (Z.div_unique _ 256 a b); lia.
    - apply (Z.mod_unique _ 256 a b); lia. }
  split; [exact Hinv|].
  intros Hret Hword. unfold i2c_read_word.
  destruct (Z.ltb_spec (ioctl_ret (smbus_read io reg)) 0); [lia|].
  rewrite Hword. exact Hinv.
Qed.

Lemma word_round_trip_witness :
  swap_bytes (swap_bytes 26868) = 26868
  /\ i2c_read_word (bus_reading 26868) REG_CALIBRATION = 26868.
Proof.
  pose proof (word_round_trip (bus_reading 26868) REG_CALIBRATION 26868
                ltac:(lia)) as [H1 H2].
  split; [exact H1|]. apply H2; [cbn; lia|reflexivity].
Defined.

(** X2: [configure_ina219] returns 0 exactly when the device accepts both
    the calibration word and the configuration word, -1 exactly when it
    refuses the calibration word (the configuration is then not sent), and
    -2 exactly when it accepts the first and refuses the second. *)
Theorem configure_ina219_codes (chip : ina219_config) (io : bus) :
  let cal := smbus_write io REG_CALIBRATION (swap_bytes (cal_value chip)) in
  let cfg := smbus_write io REG_CONFIG (swap_bytes (config_word chip)) in
  (configure_ina219 chip io = 0 <-> 0 <= cal /\ 0 <= cfg)
  /\ (configure_ina219 chip io = -1 <-> cal < 0)
  /\ (configure_ina219 chip io = -2 <-> 0 <= cal /\ cfg < 0).
Proof.
  intros cal cfg. unfold configure_ina219, i2c_write_word. fold (config_word chip).
  fold cal cfg.
  destruct (Z.ltb_spec cal 0) as [Hc|Hc]; cbn.
  - repeat split; intros; try lia; try discriminate.
  - destruct (Z.ltb_spec cfg 0) as [Hg|Hg]; cbn;
      repeat split; intros; try lia; try discriminate.
Qed.

(** X3: with a range bit below 2 and a gain below 4, the configuration word
    is a 16-bit word from which every field reads back: the range at bit 13,
    the gain at bits 11-12, both ADC resolutions 0xD, and the mode 7. *)
Theorem config_word_fields (chip : ina219_config) :
  0 <= bus_voltage chip < 2 -> 0 <= gain chip < 4 ->
  let w := config_word chip in
  0 <= w < 65536
  /\ Z.shiftr w 13 = bus_voltage chip
  /\ Z.land (Z.shiftr w 11) 3 = gain chip
  /\ Z.land (Z.shiftr w 7) 0xF = BUS_ADC_RESOLUTION
  /\ Z.land (Z.shiftr w 3) 0xF = SHUNT_ADC_RESOLUTION
  /\ Z.land w 7 = INA219_MODE.
Proof.
  intros Hb Hg. unfold config_word.
  assert (Eb : bus_voltage chip = 0 \/ bus_voltage chip = 1) by lia.
  assert (Eg : gain chip = 0 \/ gain chip = 1 \/ gain chip = 2 \/ gain chip = 3) by lia.
  destruct Eb as [-> | ->]; destruct Eg as [-> | [-> | [-> | ->]]];
    cbv; repeat split; congruence.
Qed.

Lemma config_word_fields_witness :
  config_word chip_16V_5A = 0x0EEF
  /\ Z.shiftr (config_word chip_16V_5A) 13 = BUS_VOLTAGE_RANGE_16V_5A
  /\ Z.land (Z.shiftr (config_word chip_23V_2A) 11) 3 = GAIN_DIV_8_320MV.
Proof.
  pose proof (config_word_fields chip_16V_5A ltac:(cbv; split; [discriminate|reflexivity])
                ltac:(cbv; split; [discriminate|reflexivity]))
    as (_ & H13 & _).
  pose proof (config_word_fields chip_23V_2A ltac:(cbv; split; [discriminate|reflexivity])
                ltac:(cbv; split; [discriminate|reflexivity]))
    as (_ & _ & H11 & _).
  split; [reflexivity|]. split; [exact H13|exact H11].
Defined.

(** X4: [initialize_ina219] returns a chip exactly when the allocation
    succeeded, the range argument, narrowed to the [uint8_t] of the
    parameter, is one of the two implemented ones, the bus opened, the slave
    address was accepted and the chip took its configuration; the chip
    returned is then the table entry of that range.  The narrowing lets an
    argument such as 257 set up the 23 V chip; a range of 2 or 3 gives
    NULL. *)
Theorem initialize_ina219_success (malloc_ok : bool)
    (range open_ret slave_ret : Z) (io : bus) (chip : ina219_config) :
  (initialize_ina219 malloc_ok range open_ret slave_ret io = Some chip <->
   malloc_ok = true
   /\ ((range mod 256 = BUS_VOLTAGE_RANGE_16V_5A /\ chip = chip_16V_5A)
       \/ (range mod 256 = BUS_VOLTAGE_RANGE_23V_2A /\ chip = chip_23V_2A))
   /\ 0 <= open_ret /\ slave_ret = 0 /\ configure_ina219 chip io = 0)
  /\ initialize_ina219 true 257 3 0 (bus_reading 0) = Some chip_23V_2A
  /\ initialize_ina219 true 2 3 0 (bus_reading 0) = None
  /\ initialize_ina219 true 3 3 0 (bus_reading 0) = None
  /\ initialize_ina219 false 0 3 0 (bus_reading 0) = None.
Proof.
  split; [|repeat split; reflexivity].
  unfold initialize_ina219. change (2 ^ 8) with 256.
  destruct malloc_ok; cbn [negb];
    [|split; [discriminate|intros (? & _); discriminate]].
  destruct (Z.eqb_spec (range mod 256) BUS_VOLTAGE_RANGE_23V_2A) as [Hr|Hr].
  - fold chip_23V_2A.
    destruct (Z.ltb_spec open_ret 0) as [Ho|Ho]; cbn -[configure_ina219].
    { split; [discriminate|intros (_ & _ & ? & _); lia]. }
    destruct (Z.eqb_spec slave_ret 0) as [Hs|Hs]; cbn -[configure_ina219];
      [|split; [discriminate|intros (_ & _ & _ & ? & _); lia]].
    destruct (Z.ltb_spec (configure_ina219 chip_23V_2A io) 0) as [Hc|Hc].
    + split; [discriminate|].
      intros (_ & [[Hx _]|[_ ->]] & _ & _ & Hz);
        [unfold BUS_VOLTAGE_RANGE_16V_5A, BUS_VOLTAGE_RANGE_23V_2A in *; lia|lia].
    + split.
      * intros H. injection H as <-. split; [reflexivity|].
        split; [right; split; [exact Hr|reflexivity]|].
        split; [exact Ho|]. split; [exact Hs|].
        unfold configure_ina219, i2c_write_word in *.
        destruct (smbus_write io REG_CALIBRATION _ <? 0); [cbn in Hc; lia|].
        destruct (smbus_write io REG_CONFIG _ <? 0); [cbn in Hc; lia|reflexivity].
      * intros (_ & [[Hx _]|[_ ->]] & _);
          [unfold BUS_VOLTAGE_RANGE_16V_5A, BUS_VOLTAGE_RANGE_23V_2A in *; lia|reflexivity].
  - destruct (Z.eqb_spec (range mod 256) BUS_VOLTAGE_RANGE_16V_5A) as [Hr'|Hr'].
    + fold chip_16V_5A.
      destruct (Z.ltb_spec open_ret 0) as [Ho|Ho]; cbn -[configure_ina219].
      { split; [discriminate|intros (_ & _ & ? & _); lia]. }
      destruct (Z.eqb_spec slave_ret 0) as [Hs|Hs]; cbn -[configure_ina219];
        [|split; [discriminate|intros (_ & _ & _ & ? & _); lia]].
      destruct (Z.ltb_spec (configure_ina219 chip_16V_5A io) 0) as [Hc|Hc].
      * split; [discriminate|].
        intros (_ & [[_ ->]|[Hx _]] & _ & _ & Hz); [lia|contradiction].
      * split.
        -- intros H. injection H as <-. split; [reflexivity|].
           split; [left; split; [exact Hr'|reflexivity]|].
           split; [exact Ho|]. split; [exact Hs|].
           unfold configure_ina219, i2c_write_word in *.
           destruct (smbus_write io REG_CALIBRATION _ <? 0); [cbn in Hc; lia|].
           destruct (smbus_write io REG_CONFIG _ <? 0); [cbn in Hc; lia|reflexivity].
        -- intros (_ & [[_ ->]|[Hx _]] & _); [reflexivity|contradiction].
    + split; [discriminate|]. intros (_ & [[Hx _]|[Hx _]] & _); contradiction.
Qed.

End Transport.

(** ** What the getters can return *)

Section Getters.

Lemma i2c_read_word_range (io : bus) (reg : Z) :
  -1 <= i2c_read_word io reg <= 65535.
Proof.
  unfold i2c_read_word. destruct (ioctl_ret (smbus_read io reg) <? 0); [lia|].
  pose proof (swap_bytes_range (data_word (smbus_read io reg))). lia.
Qed.

Lemma i2c_read_word_failed (io : bus) (reg : Z) :
  ioctl_ret (smbus_read io reg) < 0 -> i2c_read_word io reg = -1.
Proof.
  intros H. unfold i2c_read_word.
  destruct (Z.ltb_spec (ioctl_ret (smbus_read io reg)) 0); [reflexivity|lia].
Qed.

(** X5: when the calibration write succeeds and the register read fails,
    the getters of the signed registers return what they return for the
    register word 0xFFFE (minus one LSB), and [get_bus_voltage] returns
    -0.004 V: none of them returns the sentinel. *)
Theorem failed_read_decodes_as_word (chip : ina219_config) (io : bus) :
  i2c_write_word io REG_CALIBRATION (cal_value chip) = 0 ->
  (forall reg, ioctl_ret (smbus_read io reg) < 0) ->
  get_current chip io = get_current chip (bus_reading 0xFFFE)
  /\ get_shunt_voltage chip io = get_shunt_voltage chip (bus_reading 0xFFFE)
  /\ get_power chip io = get_power chip (bus_reading 0xFFFE)
  /\ get_bus_voltage chip io = (-0.004)%float.
Proof.
  intros Hw Hr.
  unfold get_current, get_shunt_voltage, get_power, get_bus_voltage.
  rewrite Hw.
  rewrite (i2c_read_word_failed io REG_CURRENT (Hr _)).
  rewrite (i2c_read_word_failed io REG_SHUNTVOLTAGE (Hr _)).
  rewrite (i2c_read_word_failed io REG_POWER (Hr _)).
  rewrite (i2c_read_word_failed io REG_BUSVOLTAGE (Hr _)).
  repeat split; reflexivity.
Qed.

Lemma failed_read_decodes_as_word_witness :
  get_current chip_16V_5A bus_unreadable
    = get_current chip_16V_5A (bus_reading 0xFFFE)
  /\ get_bus_voltage chip_16V_5A bus_unreadable = (-0.004)%float.
Proof.
  pose proof (failed_read_decodes_as_word chip_16V_5A bus_unreadable eq_refl)
    as (H1 & _ & _ & H4).
  - intros reg. cbn. lia.
  - split; [exact H1|exact H4].
Defined.

Lemma check_not_sentinel :
  forall_range 16 (-1) word_not_sentinel = true
  /\ word_not_sentinel 65535 = true.
Proof. split; vm_compute; reflexivity. Qed.

Lemma word_not_sentinel_all (val : Z) :
  -1 <= val <= 65535 -> word_not_sentinel val = true.
Proof.
  intros Hv. destruct check_not_sentinel as [Hlow Hlast].
  destruct (Z.eq_dec val 65535) as [->|Hne]; [exact Hlast|].
  apply (forall_range_spec 16 (-1) word_not_sentinel Hlow).
  change (2 ^ Z.of_nat 16) with 65536. lia.
Qed.

Lemma not_sentinel (x : float) :
  negb (x =? READ_FAILED)%float = true -> x <> READ_FAILED.
Proof.
  intros H E. rewrite E in H. vm_compute in H. discriminate.
Qed.

(** X6: with the configuration [main] sets up (16 V), once the calibration
    write is accepted no getter returns the sentinel -255.0, whatever the
    register read answers: there the sentinel marks the failed write and
    nothing else.  With the 23 V configuration the current register word
    62985 (-2550 * 0.1 mA) decodes to exactly -255.0: a successful read that
    equals the sentinel. *)
Theorem sentinel_ambiguity (io : bus) :
  i2c_write_word io REG_CALIBRATION (cal_value chip_16V_5A) = 0 ->
  get_current chip_16V_5A io <> READ_FAILED
  /\ get_power chip_16V_5A io <> READ_FAILED
  /\ get_shunt_voltage chip_16V_5A io <> READ_FAILED
  /\ get_bus_voltage chip_16V_5A io <> READ_FAILED
  /\ i2c_write_word (bus_reading 62985) REG_CALIBRATION (cal_value chip_23V_2A) = 0
  /\ get_current chip_23V_2A (bus_reading 62985) = READ_FAILED.
Proof.
  intros Hw.
  assert (H : forall reg,
             word_not_sentinel (i2c_read_word io reg) = true)
    by (intros reg; apply word_not_sentinel_all, i2c_read_word_range).
  unfold get_current, get_power, get_shunt_voltage, get_bus_voltage.
  rewrite Hw. cbn [Z.ltb Z.compare].
  split; [|split; [|split; [|split; [|split; reflexivity]]]].
  - specialize (H REG_CURRENT). unfold word_not_sentinel in H.
    rewrite !andb_true_iff in H. apply not_sentinel. apply H.
  - specialize (H REG_POWER). unfold word_not_sentinel in H.
    rewrite !andb_true_iff in H. apply not_sentinel. apply H.
  - specialize (H REG_SHUNTVOLTAGE). unfold word_not_sentinel in H.
    rewrite !andb_true_iff in H. apply not_sentinel. apply H.
  - specialize (H REG_BUSVOLTAGE). unfold word_not_sentinel in H.
    rewrite !andb_true_iff in H. apply not_sentinel. apply H.
Qed.

Lemma sentinel_ambiguity_witness :
  get_current chip_16V_5A (bus_reading 63862) <> READ_FAILED.
Proof.
  exact (proj1 (sentinel_ambiguity (bus_reading 63862) eq_refl)).
Defined.

Lemma check_seed_words :
  forall_range 13 (-1) word_seed_ok = true /\ word_seed_ok 8191 = true.
Proof. split; vm_compute; reflexivity. Qed.

Lemma volts_seed_ok_all (chip : ina219_config) (io : bus) :
  volts_seed_ok (get_bus_voltage chip io) = true.
Proof.
  destruct (get_bus_voltage_cases chip io) as [-> | (k & Hk & ->)];
    [reflexivity|].
  destruct check_seed_words as [Hlow Hlast].
  destruct (Z.eq_dec k 8191) as [->|Hne]; [exact Hlast|].
  apply (forall_range_spec 13 (-1) word_seed_ok Hlow).
  change (2 ^ Z.of_nat 13) with 8192. lia.
Qed.

(** X7: whatever the gauge answers at startup (a failure included), the
    seed percentage lies in [0,1] and the seeded capacity in [0, 2500] mAh;
    the percentage is 0 exactly when the reported voltage is at most 9.0 V
    (the sentinel too) and 1 exactly when it is above 12.6 V. *)
Theorem seed_always_in_range (chip : ina219_config) (io : bus)
    (now : timespec) :
  let V := get_bus_voltage chip io in
  let p := estimate_battery_percentage BATTERY_MIN_VOLTAGE chip io in
  let c := last_capacity (seed_battery chip io now) in
  ((0 <=? p)%float = true /\ (p <=? 1)%float = true)
  /\ ((p =? 0)%float = true <-> (V <=? BATTERY_MIN_VOLTAGE)%float = true)
  /\ ((p =? 1)%float = true <-> (BATTERY_MIN_VOLTAGE + 3.6 <? V)%float = true)
  /\ ((0 <=? c)%float = true
      /\ (c <=? Z2double BATTERY_CAPACITY_MAH)%float = true).
Proof.
  intros V p c. pose proof (volts_seed_ok_all chip io) as H.
  unfold volts_seed_ok, unit_interval in H. cbv zeta in H.
  rewrite !andb_true_iff, !Bool.eqb_true_iff in H.
  destruct H as [[[[H0 H1] Hz] Ho] [Hc0 Hc1]].
  subst V p c. unfold seed_battery. cbn [last_capacity].
  rewrite estimate_is_seed_of_volts.
  split; [split; assumption|]. split; [rewrite Hz; reflexivity|].
  split; [rewrite Ho; reflexivity|]. split; assumption.
Qed.

Lemma check_volts_words : forall_range 13 0 word_volts_ok = true.
Proof. vm_compute. reflexivity. Qed.

(** X22: after a successful write and read, the bus voltage is that of the
    register word without its three low (status) bits, it lies between 0 and
    32.764 V, and the next higher shifted word gives a strictly higher
    voltage: the 4 mV steps survive the rounding. *)
Theorem bus_voltage_of_word (chip : ina219_config) (io : bus) :
  i2c_write_word io REG_CALIBRATION (cal_value chip) = 0 ->
  0 <= ioctl_ret (smbus_read io REG_BUSVOLTAGE) ->
  let k := i2c_read_word io REG_BUSVOLTAGE / 8 in
  let V := get_bus_voltage chip io in
  0 <= k <= 8191
  /\ V = volts_of_word k
  /\ ((0 <=? V)%float = true /\ (V <=? 32.764)%float = true)
  /\ (V <? volts_of_word (k + 1))%float = true.
Proof.
  intros Hw Hr k V.
  assert (Hk : 0 <= k <= 8191).
  { subst k. unfold i2c_read_word.
    destruct (Z.ltb_spec (ioctl_ret (smbus_read io REG_BUSVOLTAGE)) 0); [lia|].
    pose proof (swap_bytes_range (data_word (smbus_read io REG_BUSVOLTAGE))).
    split; [apply Z.div_pos; lia|].
    apply Z.lt_succ_r. apply Z.div_lt_upper_bound; lia. }
  assert (HV : V = volts_of_word k).
  { subst V k. unfold get_bus_voltage. rewrite Hw.
    rewrite Z.shiftr_div_pow2 by lia. reflexivity. }
  split; [exact Hk|]. split; [exact HV|]. rewrite HV.
  pose proof (forall_range_spec 13 0 word_volts_ok check_volts_words k) as H.
  change (2 ^ Z.of_nat 13) with 8192 in H. specialize (H ltac:(lia)).
  unfold word_volts_ok in H. rewrite !andb_true_iff in H.
  destruct H as [[H0 H1] H2]. repeat split; assumption.
Qed.

Lemma bus_voltage_of_word_witness :
  get_bus_voltage chip_16V_5A (bus_reading 20007) = volts_of_word 2500
  /\ (get_bus_voltage chip_16V_5A (bus_reading 20007) <=? 32.764)%float = true.
Proof.
  pose proof (bus_voltage_of_word chip_16V_5A (bus_reading 20007) eq_refl
                ltac:(cbn; lia)) as (_ & HV & [_ Hhi] & _).
  split; [exact HV|exact Hhi].
Defined.

End Getters.

(** ** The bonnet *)

Section BonnetReads.

Lemma buf_at_range (buf : list byte) (i : nat) : 0 <= buf_at buf i < 256.
Proof.
  unfold buf_at. pose proof (Byte.to_N_bounded (nth i buf x00)). lia.
Qed.

(** The mask assembled from the third and fourth byte, in arithmetic. *)
Lemma mask_of_bytes (buf : list byte) :
  Z.land (Z.lor (buf_at buf 2) (Z.shiftl (buf_at buf 3) 8)) 0xFFFF
  = buf_at buf 2 + 256 * buf_at buf 3.
Proof.
  pose proof (buf_at_range buf 2) as H2. pose proof (buf_at_range buf 3) as H3.
  rewrite Z.shiftl_mul_pow2 by lia. change (2 ^ 8) with 256.
  rewrite Z.lor_comm, lor_disjoint_add by lia.
  change 0xFFFF with (Z.ones 16). rewrite Z.land_ones by lia.
  change (2 ^ 16) with 65536. rewrite Z.mod_small by lia. lia.
Qed.

Lemma read_buttons_pressed_fails (bonnet : arcade_bonnet) (io : i2c_file) :
  file_write io [INTCAPA] <> 1 \/ fst (file_read io 4) <> 4 ->
  read_buttons_pressed bonnet io = (-1, bonnet).
Proof.
  intros Hfail. unfold read_buttons_pressed.
  destruct (Z.eqb_spec (file_write io [INTCAPA]) 1) as [Hw|Hw]; cbn [negb];
    [|reflexivity].
  destruct (file_read io 4) as [n buf]. cbn [fst] in Hfail.
  destruct (Z.eqb_spec n 4) as [Hn|Hn]; cbn [negb]; [|reflexivity].
  destruct Hfail; contradiction.
Qed.

(** X8: a call of [read_buttons_pressed] either fails, returning -1 with
    the bonnet untouched, or stores the 16-bit mask [GPIOA + 256 * GPIOB]
    made of the third and fourth byte read (the two interrupt-capture bytes
    before them are ignored) and returns 1 when that mask differs from the
    stored one and 0 when it does not. *)
Theorem read_buttons_pressed_result (bonnet : arcade_bonnet) (io : i2c_file) :
  let r := read_buttons_pressed bonnet io in
  (fst r = -1 /\ snd r = bonnet
   /\ (file_write io [INTCAPA] <> 1 \/ fst (file_read io 4) <> 4))
  \/ (file_write io [INTCAPA] = 1 /\ fst (file_read io 4) = 4
      /\ state (snd r)
         = buf_at (snd (file_read io 4)) 2 + 256 * buf_at (snd (file_read io 4)) 3
      /\ 0 <= state (snd r) < 65536
      /\ fst r = if state (snd r) =? state bonnet then 0 else 1).
Proof.
  unfold read_buttons_pressed.
  destruct (Z.eqb_spec (file_write io [INTCAPA]) 1) as [Hw|Hw]; cbn [negb].
  - destruct (file_read io 4) as [n buf]. cbn [fst snd].
    destruct (Z.eqb_spec n 4) as [Hn|Hn]; cbn [negb fst snd].
    + right. cbn [state]. rewrite mask_of_bytes.
      pose proof (buf_at_range buf 2). pose proof (buf_at_range buf 3).
      repeat split; try assumption; lia.
    + left. repeat split. right. exact Hn.
  - left. repeat split. left. exact Hw.
Qed.

(** X9: reading again while the device gives the same answers changes
    nothing: the second call returns 0 after a successful first call (-1
    after a failed one) and leaves the mask of the first. *)
Theorem read_buttons_pressed_twice (bonnet : arcade_bonnet) (io : i2c_file) :
  let first := read_buttons_pressed bonnet io in
  let second := read_buttons_pressed (snd first) io in
  snd second = snd first
  /\ fst second = if fst first =? -1 then -1 else 0.
Proof.
  unfold read_buttons_pressed.
  destruct (Z.eqb_spec (file_write io [INTCAPA]) 1) as [Hw|Hw]; cbn [negb].
  - destruct (file_read io 4) as [n buf].
    destruct (Z.eqb_spec n 4) as [Hn|Hn]; cbn [negb fst snd state].
    + rewrite Z.eqb_refl. split; [reflexivity|].
      destruct (_ =? state bonnet); reflexivity.
    + split; reflexivity.
  - cbn [fst snd]. split; reflexivity.
Qed.

(** X10: the buffer written back at configuration has 15 bytes: the
    register address, both direction bytes 0xFF (inputs), both polarity
    bytes 0x00 (so the masks stay active-low), both interrupt-enable bytes
    0xFF, the six bytes after them exactly as read from the device, and both
    pull-up bytes 0xFF. *)
Theorem config_buffer_layout (regs : list byte) :
  length regs = 14%nat ->
  let buf := config_buffer regs in
  length buf = 15%nat
  /\ nth 0 buf x00 = IODIRA
  /\ (nth 1 buf x00 = xff /\ nth 2 buf x00 = xff)
  /\ (nth 3 buf x00 = x00 /\ nth 4 buf x00 = x00)
  /\ (nth 5 buf x00 = xff /\ nth 6 buf x00 = xff)
  /\ (forall i, (7 <= i <= 12)%nat -> nth i buf x00 = nth (i - 1) regs x00)
  /\ (nth 13 buf x00 = xff /\ nth 14 buf x00 = xff).
Proof.
  intros Hlen.
  do 14 (destruct regs as [|? regs]; [discriminate Hlen|]).
  destruct regs; [|discriminate Hlen].
  cbn. repeat split.
  intros i Hi.
  assert (Ei : (i = 7 \/ i = 8 \/ i = 9 \/ i = 10 \/ i = 11 \/ i = 12)%nat) by lia.
  destruct Ei as [-> | [-> | [-> | [-> | [-> | ->]]]]]; reflexivity.
Qed.

Lemma config_buffer_layout_witness :
  nth 7 (config_buffer (replicate 14 x2a)) x00 = x2a
  /\ nth 3 (config_buffer (replicate 14 x2a)) x00 = x00.
Proof.
  pose proof (config_buffer_layout (replicate 14 x2a) eq_refl)
    as (_ & _ & _ & [H3 _] & _ & Hkeep & _).
  split; [exact (Hkeep 7%nat ltac:(lia))|exact H3].
Defined.

(** X11: [configure_arcade_bonnet] returns a bonnet only after all five
    configuration transfers succeeded, the last one writing
    [config_buffer] of the registers read; but it does not look at the
    result of the first button read: when that read fails, the bonnet is
    returned all the same, with the mask the allocation left in it. *)
Theorem configure_arcade_bonnet_result (open_ret slave_ret uninit : Z)
    (io : i2c_file) (bonnet : arcade_bonnet) :
  configure_arcade_bonnet open_ret slave_ret uninit io = Some bonnet ->
  (0 <= open_ret /\ slave_ret = 0
   /\ file_write io [x05; x00] = 2 /\ file_write io [IOCONA; x44] = 2
   /\ file_write io [IODIRA] = 1 /\ fst (file_read io 14) = 14
   /\ file_write io (config_buffer (snd (file_read io 14))) = 15)
  /\ bonnet = snd (read_buttons_pressed {| state := uninit |} io)
  /\ (file_write io [INTCAPA] <> 1 \/ fst (file_read io 4) <> 4 ->
      state bonnet = uninit).
Proof.
  unfold configure_arcade_bonnet. fold config_buffer.
  destruct (Z.ltb_spec open_ret 0) as [?|Ho]; [discriminate|].
  destruct (Z.eqb_spec slave_ret 0) as [Hs|?]; cbn [negb]; [|discriminate].
  destruct (Z.eqb_spec (file_write io [x05; x00]) 2) as [H1|?]; cbn [negb]; [|discriminate].
  destruct (Z.eqb_spec (file_write io [IOCONA; x44]) 2) as [H2|?]; cbn [negb]; [|discriminate].
  destruct (Z.eqb_spec (file_write io [IODIRA]) 1) as [H3|?]; cbn [negb]; [|discriminate].
  destruct (file_read io 14) as [n regs]. cbn [fst snd].
  destruct (Z.eqb_spec n 14) as [H4|?]; cbn [negb]; [|discriminate].
  match goal with
  | |- context [file_write io ?b =? 15] =>
      destruct (Z.eqb_spec (file_write io b) 15) as [H5|?]
  end; cbn [negb]; [|discriminate].
  intros H. injection H as <-.
  split; [repeat split; try assumption; exact H5|]. split; [reflexivity|].
  intros Hfail. rewrite (read_buttons_pressed_fails _ io Hfail). reflexivity.
Qed.

Lemma configure_arcade_bonnet_result_witness :
  configure_arcade_bonnet 3 0 0x1234 bonnet_losing_reads
    = Some {| state := 0x1234 |}
  /\ state {| state := 0x1234 |} = 0x1234.
Proof.
  assert (H : configure_arcade_bonnet 3 0 0x1234 bonnet_losing_reads
              = Some {| state := 0x1234 |}) by (vm_compute; reflexivity).
  split; [exact H|].
  apply (configure_arcade_bonnet_result 3 0 0x1234 bonnet_losing_reads _ H).
  right. cbn. lia.
Defined.

End BonnetReads.

(** ** The button path of the loop *)

Section ButtonPath.

Lemma flat_map_nil_iff {A B} (f : A -> list B) (l : list A) :
  flat_map f l = [] <-> forall x, In x l -> f x = [].
Proof.
  induction l as [|a l IH]; cbn [flat_map].
  - split; [intros _ x []|reflexivity].
  - split.
    + intros H x [<-|Hx].
      * destruct (f a); [reflexivity|discriminate H].
      * apply IH; [|exact Hx]. destruct (f a); [exact H|discriminate H].
    + intros H. rewrite (H a (or_introl eq_refl)). apply IH.
      intros x Hx. apply H. right. exact Hx.
Qed.

Lemma all_buttons_complete (b : arcade_buttons) : In b all_buttons.
Proof. destruct b; cbn; tauto. Qed.

(** The diff is just the report exactly when no button bit differs. *)
Lemma button_handler_quiet_iff (last curr : Z) :
  button_handler last curr = [sync_report] <->
  forall b, Z.testbit last (button_bit b) = Z.testbit curr (button_bit b).
Proof.
  rewrite button_handler_flat_map.
  assert (Hiff : forall l : list action, l ++ [sync_report] = [sync_report] <-> l = []).
  { intros l. split; [|intros ->; reflexivity].
    intros H. apply (f_equal (@List.length action)) in H.
    rewrite length_app in H. cbn in H. destruct l; [reflexivity|cbn in H; lia]. }
  rewrite Hiff, flat_map_nil_iff. split.
  - intros H b. specialize (H b (all_buttons_complete b)).
    rewrite check_press_button_event in H.
    destruct (Z.testbit last (button_bit b)), (Z.testbit curr (button_bit b));
      cbn in H; congruence.
  - intros H b _. rewrite check_press_button_event, H, xorb_nilpotent. reflexivity.
Qed.

Lemma button_handler_same (m : Z) : button_handler m m = [sync_report].
Proof. apply button_handler_quiet_iff. reflexivity. Qed.

(** X12: the diff emits nothing but the closing report exactly when the two
    masks agree on all fourteen button bits; so equal masks give just the
    report, and so do masks that differ only in the unused bits 6 and 7 or
    above bit 15. *)
Theorem button_handler_quiet (last curr : Z) :
  (button_handler last curr = [sync_report] <->
   forall b, Z.testbit last (button_bit b) = Z.testbit curr (button_bit b))
  /\ button_handler curr curr = [sync_report]
  /\ button_handler curr (Z.lxor curr 0xC0) = [sync_report]
  /\ (forall n, 16 <= n ->
        button_handler curr (Z.lxor curr (2 ^ n)) = [sync_report]).
Proof.
  split; [apply button_handler_quiet_iff|].
  split; [apply button_handler_same|]. split.
  - apply button_handler_quiet_iff. intros b.
    rewrite Z.lxor_spec. destruct b; cbn; rewrite xorb_false_r; reflexivity.
  - intros n Hn. apply button_handler_quiet_iff. intros b.
    destruct (button_mask_bit b) as [_ Hb].
    rewrite Z.lxor_spec, Z.pow2_bits_false by lia. rewrite xorb_false_r. reflexivity.
Qed.

Lemma button_step_unfold (mode : button_wait) (io : i2c_file)
    (buttons : arcade_bonnet) (last : Z) :
  let r := match mode with
           | Poll => read_buttons_pressed buttons io
           | Interrupt wait_ret => wait_for_button_interrupt buttons wait_ret io
           end in
  button_step mode io buttons last =
    if negb (fst r =? 0)
    then (button_handler last (state (snd r)), Running (snd r, state (snd r)))
    else ret (snd r, last).
Proof.
  unfold button_step. cbv zeta.
  destruct (match mode with Poll => _ | Interrupt _ => _ end) as [u b].
  reflexivity.
Qed.

(** What refreshing the mask can answer: a failure or a timeout with the
    bonnet untouched, or a new mask with the flag telling whether it
    changed. *)
Lemma refresh_cases (mode : button_wait) (io : i2c_file)
    (buttons : arcade_bonnet) :
  let r := match mode with
           | Poll => read_buttons_pressed buttons io
           | Interrupt wait_ret => wait_for_button_interrupt buttons wait_ret io
           end in
  snd r = buttons
  \/ (fst r = (if state (snd r) =? state buttons then 0 else 1)).
Proof.
  assert (Hread : snd (read_buttons_pressed buttons io) = buttons
                  \/ fst (read_buttons_pressed buttons io)
                     = (if state (snd (read_buttons_pressed buttons io)) =? state buttons
                        then 0 else 1)).
  { unfold read_buttons_pressed.
    destruct (negb (file_write io [INTCAPA] =? 1)); [left; reflexivity|].
    destruct (file_read io 4) as [n buf].
    destruct (negb (n =? 4)); [left; reflexivity|right; reflexivity]. }
  destruct mode as [|w]; [exact Hread|].
  cbv zeta. unfold wait_for_button_interrupt.
  destruct (w >? 0); [exact Hread|left; reflexivity].
Qed.

(** X13: the loop keeps [last_state] equal to the stored mask: from such a
    state the button part of an iteration never ends the process, leaves
    them equal again, and what it emits is the diff from the old mask to the
    new one when the mask changed, and at most the bare report when it did
    not. *)
Theorem button_step_keeps_last_state (mode : button_wait) (io : i2c_file)
    (buttons : arcade_bonnet) :
  exists acts buttons',
    button_step mode io buttons (state buttons)
      = (acts, Running (buttons', state buttons'))
    /\ (state buttons' <> state buttons ->
        acts = button_handler (state buttons) (state buttons'))
    /\ (state buttons' = state buttons -> acts = [] \/ acts = [sync_report]).
Proof.
  rewrite button_step_unfold. cbv zeta.
  pose proof (refresh_cases mode io buttons) as Hr. cbv zeta in Hr.
  destruct (match mode with Poll => _ | Interrupt _ => _ end) as [u b].
  cbn [fst snd] in *.
  destruct (Z.eqb_spec u 0) as [Hu|Hu]; cbn [negb].
  - exists [], b. destruct Hr as [-> | Hr].
    + split; [reflexivity|]. split; [congruence|]. intros _. left. reflexivity.
    + rewrite Hu in Hr. destruct (Z.eqb_spec (state b) (state buttons)) as [E|E];
        [|discriminate Hr].
      unfold ret. rewrite <- E. split; [reflexivity|].
      split; [congruence|]. intros _. left. reflexivity.
  - exists (button_handler (state buttons) (state b)), b.
    split; [reflexivity|]. split; [reflexivity|].
    intros E. rewrite E, button_handler_same. right. reflexivity.
Qed.

(** X14: when the button read fails, or waiting for the interrupt reports
    an error, the iteration still runs the handler: with nothing changed it
    sends a bare report to the keyboard device and leaves the mask as it
    was; a timeout of the wait sends nothing. *)
Theorem button_step_on_failure (io : i2c_file) (buttons : arcade_bonnet) :
  (file_write io [INTCAPA] <> 1 \/ fst (file_read io 4) <> 4 ->
   button_step Poll io buttons (state buttons)
     = ([sync_report], Running (buttons, state buttons))
   /\ forall w, 0 < w ->
        button_step (Interrupt w) io buttons (state buttons)
          = ([sync_report], Running (buttons, state buttons)))
  /\ (forall w, w < 0 ->
        button_step (Interrupt w) io buttons (state buttons)
          = ([sync_report], Running (buttons, state buttons)))
  /\ button_step (Interrupt 0) io buttons (state buttons)
     = ([], Running (buttons, state buttons)).
Proof.
  split; [|split].
  - intros Hfail. split.
    + unfold button_step. rewrite (read_buttons_pressed_fails buttons io Hfail).
      cbn. rewrite button_handler_same. reflexivity.
    + intros w Hw. unfold button_step, wait_for_button_interrupt.
      destruct (Z.gtb_spec w 0) as [_|?]; [|lia].
      rewrite (read_buttons_pressed_fails buttons io Hfail).
      cbn. rewrite button_handler_same. reflexivity.
  - intros w Hw. unfold button_step, wait_for_button_interrupt.
    destruct (Z.gtb_spec w 0) as [?|_]; [lia|].
    destruct (Z.eqb_spec w 0) as [?|_]; [lia|].
    cbn [negb]. rewrite button_handler_same. reflexivity.
  - reflexivity.
Qed.

Lemma button_step_on_failure_witness :
  button_step Poll bonnet_short_read {| state := 0xFFFF |} 0xFFFF
    = ([sync_report], Running ({| state := 0xFFFF |}, 0xFFFF))
  /\ button_step (Interrupt (-1)) bonnet_short_read {| state := 0xFFFF |} 0xFFFF
     = ([sync_report], Running ({| state := 0xFFFF |}, 0xFFFF)).
Proof.
  pose proof (button_step_on_failure bonnet_short_read {| state := 0xFFFF |})
    as (Hfail & Herr & _).
  split.
  - apply Hfail. right. cbn. lia.
  - apply (Herr (-1)). lia.
Defined.

End ButtonPath.

(** ** The battery path of the loop *)

Section BatteryPath.

Ltac case_conditions :=
  repeat match goal with
         | |- context [if ?c then _ else _] => destruct c eqn:?; cbn
         end.

(** X15: a call of [battery_handler] that returns has recorded the status
    and the whole percent it was given; a further call with the same values
    opens neither file (so it cannot exit on them) and at most requests
    power-off. *)
Theorem battery_handler_writes_on_change (sys : system) (percentage : float)
    (charging : Z) (g g' : globals) (acts : list action) :
  battery_handler sys percentage charging g = (acts, Running g') ->
  g' = {| batt_charging_last := charging;
          batt_percentage_last := int_of_round (percentage * 100)%float |}
  /\ forall sys',
       fst (battery_handler sys' percentage charging g')
       = if (percentage <=? BATTERY_SHUTDOWN_LIMIT)%float && (charging =? 0)
         then [RebootPowerOff] else [].
Proof.
  intros H.
  assert (Hg : g' = {| batt_charging_last := charging;
                       batt_percentage_last := int_of_round (percentage * 100)%float |}).
  { revert H. unfold battery_handler. destruct g as [cl pl]. cbn.
    case_conditions; intros H; try discriminate H; injection H as _ <-;
      repeat match goal with
             | Hc : negb _ = true |- _ => apply negb_true_iff in Hc
             | Hc : negb _ = false |- _ => apply negb_false_iff in Hc
             end;
      repeat match goal with
             | Hc : (_ =? _) = true |- _ => apply Z.eqb_eq in Hc
             end;
      subst; reflexivity. }
  split; [exact Hg|].
  intros sys'. rewrite Hg. unfold battery_handler. cbn.
  repeat (rewrite Z.eqb_refl; cbn).
  destruct ((percentage <=? BATTERY_SHUTDOWN_LIMIT)%float && (charging =? 0));
    cbn; [destruct (reboot_returns sys')|]; reflexivity.
Qed.

Lemma battery_handler_writes_on_change_witness :
  fst (battery_handler system_no_status 0.5 1
         {| batt_charging_last := 1; batt_percentage_last := 50 |}) = [].
Proof.
  assert (H : battery_handler system_ok 0.5 1 initial_globals
              = ([WriteStatus "Charging"; WriteCapacity 50],
                 Running {| batt_charging_last := 1; batt_percentage_last := 50 |}))
    by (vm_compute; reflexivity).
  exact (proj2 (battery_handler_writes_on_change _ _ _ _ _ _ H) system_no_status).
Defined.

Lemma quot_million (n : Z) :
  - 1000000 < n - 1000000 * Z.quot n 1000000 < 1000000.
Proof.
  pose proof (Z.quot_rem' n 1000000) as Hqr.
  pose proof (Z.rem_bound_abs n 1000000 ltac:(lia)). lia.
Qed.

(** X16: with normalized timestamps and the clock moving forward by less
    than 2^32 - 1 ms, [ms_passed] is the elapsed time in whole milliseconds
    rounded down or up (truncating the nanosecond difference toward zero
    rounds up when the nanosecond field went down): so 200 ms elapsed always
    start an update, and an update can start up to 1 ms early, as after
    199.000001 ms here. *)
Theorem ms_between_forward (current_ts last : timespec) :
  normalized current_ts -> normalized last ->
  let e := total_ns current_ts - total_ns last in
  0 <= e < (2 ^ 32 - 1) * 1000000 ->
  let ms := ms_between current_ts last in
  (e / 1000000 <= ms <= e / 1000000 + 1)
  /\ (200 * 1000000 <= e -> BATTERY_UPDATE_INTERVAL <= ms)
  /\ (BATTERY_UPDATE_INTERVAL <= ms -> 199 * 1000000 < e)
  /\ ms_between {| tv_sec := 1; tv_nsec := 199000000 |}
                {| tv_sec := 0; tv_nsec := 999999999 |} = 200.
Proof.
  intros Hc Hl e He ms. unfold normalized in Hc, Hl.
  unfold BATTERY_UPDATE_INTERVAL.
  pose proof (quot_million (tv_nsec current_ts - tv_nsec last)) as Hq.
  set (x := (tv_sec current_ts - tv_sec last) * 1000
            + Z.quot (tv_nsec current_ts - tv_nsec last) 1000000).
  assert (Hx : e - 1000000 < x * 1000000 < e + 1000000)
    by (subst e x; unfold total_ns; lia).
  change (2 ^ 32) with 4294967296 in *.
  assert (Hms : ms = x).
  { subst ms. unfold ms_between. fold x. change (2 ^ 32) with 4294967296.
    apply Z.mod_small. lia. }
  rewrite Hms.
  pose proof (Z.div_mod e 1000000 ltac:(lia)) as Hdm.
  pose proof (Z.mod_pos_bound e 1000000 ltac:(lia)) as Hmb.
  repeat split; try lia. 
Qed.

Lemma ms_between_forward_witness :
  BATTERY_UPDATE_INTERVAL <= ms_between after_200_ms epoch.
Proof.
  pose proof (ms_between_forward after_200_ms epoch) as H.
  cbv zeta in H.
  apply H; unfold normalized, total_ns; cbn; lia.
Defined.

(** X17: when the wall clock is set back between two iterations (by at
    least 1 ms and less than 2^32 - 201 ms), [ms_passed] wraps around in its
    [unsigned int]: it is about 2^32 ms minus the step back, so the update
    is taken at once and integrates close to 49.7 days. *)
Theorem ms_between_clock_set_back (current_ts last : timespec) :
  normalized current_ts -> normalized last ->
  let e := total_ns current_ts - total_ns last in
  - (2 ^ 32 - 201) * 1000000 <= e <= - 1000000 ->
  let ms := ms_between current_ts last in
  BATTERY_UPDATE_INTERVAL <= ms
  /\ 2 ^ 32 * 1000000 + e - 1000000 < ms * 1000000
     < 2 ^ 32 * 1000000 + e + 1000000.
Proof.
  intros Hc Hl e He ms. unfold normalized in Hc, Hl.
  unfold BATTERY_UPDATE_INTERVAL.
  pose proof (quot_million (tv_nsec current_ts - tv_nsec last)) as Hq.
  set (x := (tv_sec current_ts - tv_sec last) * 1000
            + Z.quot (tv_nsec current_ts - tv_nsec last) 1000000).
  assert (Hx : e - 1000000 < x * 1000000 < e + 1000000)
    by (subst e x; unfold total_ns; lia).
  change (2 ^ 32) with 4294967296 in *.
  assert (Hms : ms = x + 4294967296).
  { subst ms. unfold ms_between. fold x. change (2 ^ 32) with 4294967296.
    symmetry. apply (Z.mod_unique x 4294967296 (-1)); lia. }
  rewrite Hms. lia.
Qed.

Lemma ms_between_clock_set_back_witness :
  ms_between epoch {| tv_sec := 1; tv_nsec := 0 |} = 4294966296
  /\ BATTERY_UPDATE_INTERVAL <= ms_between epoch {| tv_sec := 1; tv_nsec := 0 |}.
Proof.
  pose proof (ms_between_clock_set_back epoch {| tv_sec := 1; tv_nsec := 0 |}) as H.
  cbv zeta in H. split; [reflexivity|].
  apply H; unfold normalized, total_ns; cbn; lia.
Defined.

End BatteryPath.

(** ** The window over time *)

Section Window.

Local Open Scope nat_scope.

(** X18: every update turns a window of 128 entries into the new sample
    twice followed by the old entries 1..126: the entries at 1..126 move up
    by one place, and the old entries at 0 and at 127 are both gone. *)
Theorem battery_update_window (chip : ina219_config) (io : bus)
    (ts : timespec) (ms : Z) (b : battery) :
  length (battery_current_history b) = BATTERY_SAMPLE_BUFFER ->
  let h := battery_current_history b in
  let h' := battery_current_history (fst (fst (battery_update chip io ts ms b))) in
  h' = get_current chip io :: get_current chip io :: take 126 (drop 1 h)
  /\ length h' = BATTERY_SAMPLE_BUFFER
  /\ (forall i, 2 <= i <= 127 -> h' !! i = h !! (i - 1)).
Proof.
  intros Hlen h h'.
  assert (E : h' = get_current chip io :: get_current chip io :: take 126 (drop 1 h)).
  { subst h' h. rewrite battery_update_fields. cbn [fst battery_current_history].
    rewrite push_sample_spec by exact Hlen. reflexivity. }
  split; [exact E|]. split.
  - rewrite E. cbn [length]. rewrite length_take, length_drop. fold h in Hlen.
    unfold BATTERY_SAMPLE_BUFFER in *. lia.
  - intros i Hi. rewrite E.
    destruct i as [|[|j]]; [lia|lia|].
    change ((get_current chip io :: get_current chip io :: take 126 (drop 1 h))
              !! S (S j)) with (take 126 (drop 1 h) !! j).
    rewrite lookup_take_lt by lia. rewrite lookup_drop.
    f_equal; lia.
Qed.

Lemma battery_update_window_witness :
  battery_current_history
    (fst (fst (battery_update chip_16V_5A (bus_reading 100) after_200_ms 200
                 seeded_1000))) !! 2 = Some 0%float.
Proof.
  pose proof (battery_update_window chip_16V_5A (bus_reading 100) after_200_ms
                200 seeded_1000 eq_refl) as (_ & _ & H).
  cbv zeta in H. rewrite (H 2 ltac:(lia)). reflexivity.
Defined.

Lemma push_samples_length (n : nat) (d : float) (h : list float) :
  length h = BATTERY_SAMPLE_BUFFER ->
  length (fst (push_samples n d h)) = BATTERY_SAMPLE_BUFFER.
Proof.
  intros Hlen. induction n as [|n IH].
  - cbn [push_samples fst]. exact Hlen.
  - rewrite push_samples_S. apply push_sample_length. exact IH.
Qed.

Lemma push_samples_last_flag (n : nat) (d : float) (h : list float) :
  length h = BATTERY_SAMPLE_BUFFER ->
  snd (push_samples (S n) d h)
  = if existsb positive_sample (fst (push_samples (S n) d h)) then 1%Z else 0%Z.
Proof.
  intros Hlen. rewrite push_samples_S.
  apply push_sample_flag. apply push_samples_length. exact Hlen.
Qed.

(** X19: a positive sample keeps the flag at 1 through the next 126 updates
    with non-positive samples, and the 127th such update clears it,
    whatever the window held before: the flag looks back over 127 samples,
    not 128. *)
Theorem positive_sample_lifetime (c d : float) (h : list float) (m : nat) :
  length h = BATTERY_SAMPLE_BUFFER ->
  (0 <? c)%float = true -> (0 <? d)%float = false -> 1 <= m ->
  snd (push_samples m d (fst (push_sample c h)))
  = if m <=? 126 then 1%Z else 0%Z.
Proof.
  intros Hlen Hc Hd Hm.
  assert (Hlen1 : length (fst (push_sample c h)) = BATTERY_SAMPLE_BUFFER)
    by (apply push_sample_length; exact Hlen).
  destruct m as [|n]; [lia|].
  rewrite (push_samples_last_flag n d _ Hlen1).
  destruct (Nat.leb_spec (S n) 126) as [Hle|Hgt].
  - rewrite (push_samples_window n d _ Hlen1).
    rewrite (push_sample_spec c h Hlen). cbn [fst drop].
    unfold BATTERY_SAMPLE_BUFFER.
    rewrite take_app, length_replicate, existsb_app.
    replace (128 - S (S n)) with (S (126 - S n)) by lia.
    cbn [take existsb]. unfold positive_sample at 2. rewrite Hc.
    rewrite orb_true_r. reflexivity.
  - rewrite (push_samples_fill (S n) d _ Hlen1) by lia.
    unfold BATTERY_SAMPLE_BUFFER.
    rewrite (existsb_replicate positive_sample 127 d).
    unfold positive_sample. rewrite Hd. reflexivity.
Qed.

Lemma positive_sample_lifetime_witness :
  snd (push_samples 126 (-5) (fst (push_sample 5 zero_history))) = 1%Z
  /\ snd (push_samples 127 (-5) (fst (push_sample 5 zero_history))) = 0%Z.
Proof.
  pose proof (positive_sample_lifetime 5 (-5) zero_history 126 eq_refl eq_refl
                eq_refl ltac:(lia)) as H126.
  pose proof (positive_sample_lifetime 5 (-5) zero_history 127 eq_refl eq_refl
                eq_refl ltac:(lia)) as H127.
  split; [exact H126|exact H127].
Defined.

End Window.

(** ** The loop as a whole *)

Section Loop.

Ltac case_conditions :=
  repeat match goal with
         | |- context [if ?c then _ else _] => destruct c eqn:?; cbn
         end.

Lemma power_offs_app (a b : list action) :
  power_offs (a ++ b) = (power_offs a + power_offs b)%nat.
Proof. unfold power_offs. rewrite List.filter_app, length_app. reflexivity. Qed.

Lemma power_off_shape_bind {A B} (c : proc A) (k : A -> proc B) :
  power_off_shape c -> (forall a, power_off_shape (k a)) ->
  power_off_shape (bind c k).
Proof.
  unfold power_off_shape.
  intros Hc Hk. destruct c as [acts [a|code|]]; cbn [bind].
  - destruct Hc as [[Hc _]|[_ Hc]]; [discriminate Hc|]. cbn [fst] in Hc.
    specialize (Hk a). destruct (k a) as [acts' o]. cbn [fst snd] in *.
    destruct Hk as [(Ho & Hn & Hl)|(Ho & Hn)].
    + left. split; [exact Ho|]. rewrite power_offs_app, Hc, Hn.
      split; [reflexivity|]. rewrite last_app, Hl. reflexivity.
    + right. split; [exact Ho|]. rewrite power_offs_app, Hc, Hn. reflexivity.
  - cbn [fst snd] in *. destruct Hc as [[Hc _]|[_ Hc]]; [discriminate Hc|].
    right. split; [discriminate|exact Hc].
  - cbn [fst snd] in *. destruct Hc as [(_ & Hn & Hl)|[Hc _]]; [|contradiction].
    left. repeat split; assumption.
Qed.

Lemma power_off_shape_ret {A} (a : A) : power_off_shape (ret a).
Proof. right. split; [discriminate|reflexivity]. Qed.

Lemma button_handler_uinput (last curr : Z) :
  forallb is_uinput (button_handler last curr) = true.
Proof.
  rewrite button_handler_flat_map, forallb_app. cbn [forallb is_uinput sync_report].
  rewrite andb_true_r. apply forallb_forall. intros a Ha.
  apply in_flat_map in Ha. destruct Ha as (b & _ & Ha).
  unfold check_press_button in Ha.
  destruct (negb _); [|destruct Ha].
  destruct Ha as [<-|[]]. reflexivity.
Qed.

(** The button part always goes on, and only writes to the keyboard
    device. *)
Lemma button_step_running (mode : button_wait) (io : i2c_file)
    (buttons : arcade_bonnet) (last : Z) :
  exists acts bl,
    button_step mode io buttons last = (acts, Running bl)
    /\ forallb is_uinput acts = true.
Proof.
  rewrite button_step_unfold. cbv zeta.
  destruct (negb _).
  - eexists _, _. split; [reflexivity|]. apply button_handler_uinput.
  - eexists _, _. split; reflexivity.
Qed.

Lemma uinput_no_power_off (acts : list action) :
  forallb is_uinput acts = true -> power_offs acts = 0%nat.
Proof.
  induction acts as [|a acts IH]; [reflexivity|].
  cbn [forallb]. intros H. apply andb_true_iff in H. destruct H as [Ha Hs].
  unfold power_offs in *. destruct a; try discriminate Ha. cbn. apply IH, Hs.
Qed.

Lemma battery_handler_shape (sys : system) (percentage : float) (charging : Z)
    (g : globals) :
  reboot_returns sys = false ->
  power_off_shape (battery_handler sys percentage charging g).
Proof.
  intros Hr. unfold battery_handler, power_off_shape, power_offs. rewrite Hr.
  case_conditions;
    first [ right; split; [discriminate|reflexivity]
          | left; repeat split; reflexivity ].
Qed.

Lemma battery_handler_no_uinput (sys : system) (percentage : float)
    (charging : Z) (g : globals) :
  forallb (fun a => negb (is_uinput a))
    (fst (battery_handler sys percentage charging g)) = true.
Proof. unfold battery_handler. case_conditions; reflexivity. Qed.

Lemma battery_tick_shape (chip : ina219_config) (io : bus) (sys : system)
    (ts : timespec) (b : battery) (g : globals) :
  reboot_returns sys = false ->
  power_off_shape (battery_tick chip io sys ts b g).
Proof.
  intros Hr. unfold battery_tick.
  destruct (_ >=? _); [|apply power_off_shape_ret].
  destruct (battery_update _ _ _ _ _) as [[b' p] c].
  apply power_off_shape_bind; [apply battery_handler_shape, Hr|].
  intros a. apply power_off_shape_ret.
Qed.

Lemma loop_body_shape (f : flags) (chip : ina219_config) (w : world)
    (d : daemon) :
  reboot_works w -> power_off_shape (loop_body f chip w d).
Proof.
  intros Hr. unfold loop_body.
  apply power_off_shape_bind.
  - destruct (enable_buttons f); [|apply power_off_shape_ret].
    destruct (button_step_running (button_mode w) (bonnet_io w) (buttons d)
                (last_state d)) as (acts & bl & -> & Hu).
    right. split; [discriminate|]. apply uinput_no_power_off, Hu.
  - intros bl. apply power_off_shape_bind.
    + destruct (enable_battery f); [|apply power_off_shape_ret].
      apply battery_tick_shape, Hr.
    + intros bg. apply power_off_shape_ret.
Qed.

(** X20: over any number of iterations in which [reboot] does not come
    back, the daemon requests power-off at most once; it requested it
    exactly when the run ended with the machine powered off, and the request
    is then the last thing it did. *)
Theorem run_powers_off_at_most_once (f : flags) (chip : ina219_config)
    (ws : list world) (d : daemon) :
  Forall reboot_works ws ->
  let r := run f chip ws d in
  (power_offs (fst r) <= 1)%nat
  /\ (power_offs (fst r) = 1%nat <-> snd r = PoweredOff)
  /\ (snd r = PoweredOff -> last (fst r) = Some RebootPowerOff).
Proof.
  intros Hws r.
  assert (Hshape : power_off_shape r).
  { subst r. revert d. induction Hws as [|w ws Hw Hws IH]; intros d.
    - apply power_off_shape_ret.
    - cbn [run]. apply power_off_shape_bind; [apply loop_body_shape, Hw|apply IH]. }
  destruct Hshape as [(Ho & Hn & Hl)|(Ho & Hn)].
  - rewrite Hn. repeat split; auto.
  - rewrite Hn. repeat split; try lia; try discriminate; try contradiction.
Qed.

Lemma run_powers_off_at_most_once_witness :
  power_offs
    (fst (run both_enabled chip_16V_5A [world_reading 0; world_reading 0]
            daemon_seeded_blind)) = 1%nat.
Proof.
  assert (Hws : Forall reboot_works [world_reading 0; world_reading 0])
    by (repeat constructor).
  apply (run_powers_off_at_most_once both_enabled chip_16V_5A _
           daemon_seeded_blind Hws).
  vm_compute. reflexivity.
Defined.

Lemma forallb_app_true {A} (P : A -> bool) (a b : list A) :
  forallb P a = true -> forallb P b = true -> forallb P (a ++ b) = true.
Proof. intros Ha Hb. rewrite forallb_app, Ha, Hb. reflexivity. Qed.

(** With the battery part switched off an iteration goes on, only writes to
    the keyboard device, and leaves the battery variables alone. *)
Lemma loop_body_without_battery (f : flags) (chip : ina219_config)
    (w : world) (d : daemon) :
  enable_battery f = false ->
  exists acts d',
    loop_body f chip w d = (acts, Running d')
    /\ forallb is_uinput acts = true
    /\ batt d' = batt d /\ glob d' = glob d.
Proof.
  intros Hb. unfold loop_body. rewrite Hb.
  destruct (enable_buttons f).
  - destruct (button_step_running (button_mode w) (bonnet_io w) (buttons d)
                (last_state d)) as (acts & bl & -> & Hu).
    eexists _, _. cbn. rewrite app_nil_r. repeat split. exact Hu.
  - eexists _, _. cbn. repeat split.
Qed.

(** With the button part switched off an iteration writes nothing to the
    keyboard device and leaves the button variables alone. *)
Lemma loop_body_without_buttons (f : flags) (chip : ina219_config)
    (w : world) (d : daemon) :
  enable_buttons f = false ->
  forallb (fun a => negb (is_uinput a)) (fst (loop_body f chip w d)) = true
  /\ forall d', snd (loop_body f chip w d) = Running d' ->
       buttons d' = buttons d /\ last_state d' = last_state d.
Proof.
  intros Hb. unfold loop_body. rewrite Hb. cbn [bind ret].
  destruct (enable_battery f); [|cbn; split; [reflexivity|]; intros d' [= <-]; split; reflexivity].
  unfold battery_tick.
  destruct (_ >=? _); [|cbn; split; [reflexivity|]; intros d' [= <-]; split; reflexivity].
  destruct (battery_update _ _ _ _ _) as [[b' p] c].
  pose proof (battery_handler_no_uinput (sys w) p c (glob d)) as Hn.
  destruct (battery_handler (sys w) p c (glob d)) as [acts [g'|code|]];
    cbn in *; rewrite ?app_nil_r; (split; [exact Hn|]);
    intros d' Hd; [injection Hd as <-; split; reflexivity|discriminate|discriminate].
Qed.

(** X21: the switches separate the two parts for good.  Without battery
    monitoring ([-b]) a run of any length never ends, only ever writes to
    the keyboard device (no file, no power-off request) and keeps the
    battery variables; without button monitoring ([-s]) a run never writes
    to the keyboard device and keeps the button variables. *)
Theorem disabled_part_stays_silent (f : flags) (chip : ina219_config)
    (ws : list world) (d : daemon) :
  (enable_battery f = false ->
   exists d', snd (run f chip ws d) = Running d'
     /\ batt d' = batt d /\ glob d' = glob d
     /\ forallb is_uinput (fst (run f chip ws d)) = true)
  /\ (enable_buttons f = false ->
      forallb (fun a => negb (is_uinput a)) (fst (run f chip ws d)) = true
      /\ forall d', snd (run f chip ws d) = Running d' ->
           buttons d' = buttons d /\ last_state d' = last_state d).
Proof.
  split.
  - intros Hb. revert d. induction ws as [|w ws IH]; intros d.
    + exists d. cbn. repeat split.
    + destruct (loop_body_without_battery f chip w d Hb)
        as (acts & d1 & Hl & Hu & Hbatt & Hglob).
      destruct (IH d1) as (d' & Hrun & Hb' & Hg' & Hu').
      exists d'. cbn [run]. rewrite Hl. cbn [bind].
      destruct (run f chip ws d1) as [acts' o]. cbn [fst snd] in *.
      split; [exact Hrun|]. split; [congruence|]. split; [congruence|].
      apply forallb_app_true; assumption.
  - intros Hb. revert d. induction ws as [|w ws IH]; intros d.
    + cbn. split; [reflexivity|]. intros d' [= <-]. split; reflexivity.
    + destruct (loop_body_without_buttons f chip w d Hb) as [Hn Hkeep].
      cbn [run]. destruct (loop_body f chip w d) as [acts [d1|code|]];
        cbn [bind fst snd] in *.
      * destruct (IH d1) as [Hn' Hkeep'].
        destruct (Hkeep d1 eq_refl) as [E1 E2].
        destruct (run f chip ws d1) as [acts' o]. cbn [fst snd] in *.
        split; [apply forallb_app_true; assumption|].
        intros d' Hd. destruct (Hkeep' d' Hd). split; congruence.
      * split; [exact Hn|]. intros d' Hd. discriminate Hd.
      * split; [exact Hn|]. intros d' Hd. discriminate Hd.
Qed.

End Loop.
